(** * Package fmt: the directive reconstructor and the output buffer

    A shallow embedding of [print.go]: the reserved strings, the [State]
    interface handed to custom formatters, [FormatString] and the [buffer]
    methods, together with the two standard-library routines they call
    ([strconv.AppendInt] in base 10 and [utf8.AppendRune]). *)

From Stdlib Require Import ZArith List Bool Ascii String Lia.
From ExtLib Require Import Structures.Monad Structures.MonadState Data.Monads.StateMonad.
Import ListNotations.
Import MonadNotation.

Local Open Scope Z_scope.
Local Open Scope monad_scope.

(* ===================================================================== *)
(** ** Machine integers, bytes and strings *)
(* ===================================================================== *)

(** Go's [byte] is an 8-bit value; a Go [string] is a sequence of bytes.
    [ascii] is exactly an 8-bit value, so [[]byte] is [list ascii] and a Go
    string is a [string]. *)
Definition byte := ascii.
Abbreviation rune := Z (only parsing).   (* int32 *)
Abbreviation int := Z (only parsing).    (* int, at most 64 bits wide *)

(** Conversions between integer types keep the low bits (two's complement). *)
Definition uint8 (z : Z) : Z := z mod 2 ^ 8.
Definition uint32 (z : Z) : Z := z mod 2 ^ 32.
Definition uint64 (z : Z) : Z := z mod 2 ^ 64.
Definition int64 (z : Z) : Z := (z + 2 ^ 63) mod 2 ^ 64 - 2 ^ 63.

(** The byte whose value is [z] (for [0 <= z < 256]). *)
Definition mkbyte (z : Z) : byte := ascii_of_N (Z.to_N z).
Definition byteval (b : byte) : Z := Z.of_N (N_of_ascii b).

(** [byte(c)]: conversion of an integer to [byte]. *)
Definition byte_of (z : Z) : byte := mkbyte (uint8 z).

(** [string(b)] for [b []byte] and [[]byte(s)]. *)
Definition string_of_bytes (b : list byte) : string := string_of_list_ascii b.
Definition bytes_of_string (s : string) : list byte := list_ascii_of_string s.

(** [for _, c := range s] over an ASCII-only literal yields one rune per
    byte. *)
Definition runes_of_ascii (s : string) : list rune :=
  map byteval (list_ascii_of_string s).

(* ===================================================================== *)
(** ** Slices and [append] *)
(* ===================================================================== *)

(** A byte slice is its elements plus where they live.  [FormatString]
    starts from a slice of a local array; [append] keeps the array as long
    as the length stays within its capacity and moves to a fresh, larger
    heap array otherwise. *)
Inductive backing :=
| Local (capacity : nat)   (* a fixed-size local array *)
| Heap.                    (* grown by the runtime *)

Record slice := mkSlice { elems : list byte; store : backing }.

Definition append (s : slice) (p : list byte) : slice :=
  let e := (elems s ++ p)%list in
  match store s with
  | Local c => mkSlice e (if (List.length e <=? c)%nat then Local c else Heap)
  | Heap => mkSlice e Heap
  end.

(** [tmp[:0]] for [var tmp [n]byte]. *)
Definition local_array (n : nat) : slice := mkSlice [] (Local n).

(* ===================================================================== *)
(** ** strconv.AppendInt, base 10 *)
(* ===================================================================== *)

Definition digit (d : Z) : byte := mkbyte (48 + d).

(** The digit loop of [formatBits]:
    [for u >= 10 { q := u / 10; a[i] = '0' + u - q*10; u = q }; a[i] = '0' + u].
    A [uint64] has at most 20 decimal digits, which bounds the loop. *)
Fixpoint formatDigits (fuel : nat) (u : Z) (a : list byte) : list byte :=
  match fuel with
  | O => a
  | S fuel' =>
      if 10 <=? u
      then let q := u / 10 in formatDigits fuel' q (digit (u - q * 10) :: a)
      else digit u :: a
  end.

Definition formatBits (i : Z) : list byte :=
  let neg := i <? 0 in
  let u := uint64 i in
  let u := if neg then uint64 (- u) else u in
  let a := formatDigits 20 u [] in
  if neg then "-"%char :: a else a.

(** [AppendInt(dst, i, 10)] appends the text of [i] in one [append]; its
    fast path for [0 <= i < 100] produces the same one or two digits. *)
Definition AppendInt (dst : slice) (i : Z) : slice := append dst (formatBits i).

(* ===================================================================== *)
(** ** utf8.AppendRune *)
(* ===================================================================== *)

Module utf8.
Definition RuneError : rune := 65533.      (* U+FFFD *)
Definition MaxRune : rune := 1114111.      (* U+10FFFF *)
Definition surrogateMin := 55296.          (* 0xD800 *)
Definition surrogateMax := 57343.          (* 0xDFFF *)
Definition tx := 128.                      (* 0b10000000 *)
Definition t2 := 192.                      (* 0b11000000 *)
Definition t3 := 224.                      (* 0b11100000 *)
Definition t4 := 240.                      (* 0b11110000 *)
Definition maskx := 63.                    (* 0b00111111 *)
Definition rune1Max := 127.                (* 1<<7 - 1 *)
Definition rune2Max := 2047.               (* 1<<11 - 1 *)
Definition rune3Max := 65535.              (* 1<<16 - 1 *)

(** [t | byte(r>>k)] and [tx | byte(r>>k)&maskx]. *)
Definition lead (t r k : Z) : byte := mkbyte (Z.lor t (uint8 (Z.shiftr r k))).
Definition cont (r k : Z) : byte :=
  mkbyte (Z.lor tx (Z.land (uint8 (Z.shiftr r k)) maskx)).

Definition encode3 (r : rune) : list byte := [lead t3 r 12; cont r 6; cont r 0].

Definition encodeNonASCII (r : rune) : list byte :=
  let i := uint32 r in
  if i <=? rune2Max then [lead t2 r 6; cont r 0]
  else if (MaxRune <? i) || ((surrogateMin <=? i) && (i <=? surrogateMax))
       then encode3 RuneError
  else if i <=? rune3Max then encode3 r
  else [lead t4 r 18; cont r 12; cont r 6; cont r 0].

Definition encode (r : rune) : list byte :=
  if uint32 r <=? rune1Max then [byte_of r] else encodeNonASCII r.

Definition AppendRune (p : slice) (r : rune) : slice := append p (encode r).

Definition ValidRune (r : rune) : bool :=
  ((0 <=? r) && (r <? surrogateMin)) || ((surrogateMax <? r) && (r <=? MaxRune)).
End utf8.

(* ===================================================================== *)
(** ** print.go *)
(* ===================================================================== *)

Local Open Scope string_scope.

(** Strings for use with buffer.WriteString. *)
Definition commaSpaceString := ", ".
Definition nilAngleString := "<nil>".
Definition nilParenString := "(nil)".
Definition nilString := "nil".
Definition mapString := "map[".
Definition percentBangString := "%!".
Definition missingString := "(MISSING)".
Definition badIndexString := "(BADINDEX)".
Definition panicString := "(PANIC=".
Definition extraString := "%!(EXTRA ".
Definition badWidthString := "%!(BADWIDTH)".
Definition badPrecString := "%!(BADPREC)".
Definition noVerbString := "%!(NOVERB)".
Definition invReflectString := "<invalid reflect.Value>".

Local Open Scope Z_scope.

(** Go's [error]: [nil] or an error carrying a message. *)
Definition error := option string.

(** [State] represents the printer state passed to custom formatters.  Its
    methods are calls on a state object, so each is a computation over the
    implementing type [S]; nothing in the interface itself stops an
    implementation from changing the object when queried. *)
Class State (S : Type) : Type := {
  (* emits formatted output to be printed *)
  Write : list byte -> state S (int * error);
  (* the value of the width option and whether it has been set *)
  Width : state S (int * bool);
  (* the value of the precision option and whether it has been set *)
  Precision : state S (int * bool);
  (* whether the flag c, a character, has been set *)
  Flag : int -> state S bool
}.

(** [Stringer] is implemented by any value that has a [String] method. *)
Class Stringer (A : Type) : Type := { String : A -> string }.

(** [GoStringer] is implemented by any value that has a [GoString] method. *)
Class GoStringer (A : Type) : Type := { GoString : A -> string }.

(** All known flags, in the order [FormatString] ranges over them. *)
Definition knownFlags : list rune := runes_of_ascii " +-#0".

(** [for _, c := range l { b = body(b, c) }] with calls on the state object
    in the body. *)
Fixpoint forRange {S B : Type} (body : B -> rune -> state S B)
    (l : list rune) (b : B) : state S B :=
  match l with
  | [] => ret b
  | c :: l' => b' <- body b c ;; forRange body l' b'
  end.

Section FormatString.
Context {S : Type} `{State S}.

(** The body of the loop over the known flags:
    [if state.Flag(int(c)) { b = append(b, byte(c)) }]. *)
Definition appendFlag (b : slice) (c : rune) : state S slice :=
  f <- Flag c ;;                      (* The argument is an int. *)
  ret (if f : bool then append b [byte_of c] else b).

(** The body of [FormatString] up to the final conversion [string(b)]. *)
Definition formatDirective (verb : rune) : state S slice :=
  let tmp := local_array 16 in                       (* Use a local buffer. *)
  let b := append tmp ["%"%char] in
  b <- forRange appendFlag knownFlags b ;;
  '(w, ok) <- Width ;;
  let b := if ok : bool then AppendInt b (int64 w) else b in
  '(p, ok) <- Precision ;;
  let b := if ok : bool then AppendInt (append b ["."%char]) (int64 p) else b in
  ret (utf8.AppendRune b verb).

Definition FormatString (verb : rune) : state S string :=
  b <- formatDirective verb ;;
  ret (string_of_bytes (elems b)).

End FormatString.

(** Use simple []byte instead of bytes.Buffer to avoid large dependency. *)
Definition buffer := slice.

Module buffer_.
Definition write (b : buffer) (p : list byte) : buffer := append b p.
Definition writeString (b : buffer) (s : string) : buffer :=
  append b (bytes_of_string s).
Definition writeByte (b : buffer) (c : byte) : buffer := append b [c].
Definition writeRune (b : buffer) (r : rune) : buffer := utf8.AppendRune b r.
End buffer_.

(* ===================================================================== *)
(** ** The printer state handed to custom formatters *)
(* ===================================================================== *)

(** Modelled from the spec: the options record of one directive (the
    OptionSet of the design; the package's own record is declared outside
    the file embedded here).  Flags are kept in the order in which the
    directive supplied them; width and precision are each independently set
    or not. *)
Record OptionSet := mkOptionSet {
  flags : list rune;
  width : option int;
  precision : option int
}.

(** Modelled from the spec: the implementation of [State] that the printer
    passes to a custom formatter (the FormattingContext of the design; the
    package's own implementing type is declared outside the file embedded
    here).  It wraps one output sink and one options record; [Write] passes
    the bytes through to the sink, the three queries read the options. *)
Record FormattingContext := mkContext {
  sink : buffer;
  options : OptionSet
}.

Module ctx.
Definition Write (b : list byte) : state FormattingContext (int * error) :=
  c <- get ;;
  put (mkContext (buffer_.write (sink c) b) (options c)) ;;
  ret (Z.of_nat (List.length b), None).

Definition report (o : option int) : int * bool :=
  match o with
  | Some v => (v, true)
  | None => (0, false)
  end.

Definition Width : state FormattingContext (int * bool) :=
  c <- get ;; ret (report (width (options c))).

Definition Precision : state FormattingContext (int * bool) :=
  c <- get ;; ret (report (precision (options c))).

Definition Flag (ch : int) : state FormattingContext bool :=
  c <- get ;; ret (existsb (Z.eqb ch) (flags (options c))).
End ctx.

#[export] Instance FormattingContext_State : State FormattingContext :=
  {| Write := ctx.Write; Width := ctx.Width;
     Precision := ctx.Precision; Flag := ctx.Flag |}.

(** A context over an empty sink, from the flag characters of a directive. *)
Definition directive (fl : string) (w p : option int) : FormattingContext :=
  mkContext (mkSlice [] Heap) (mkOptionSet (runes_of_ascii fl) w p).

(* ===================================================================== *)
(** ** What FormatString asks of a state, and what it makes of the answers *)
(* ===================================================================== *)

(** The answers a state gives to the queries of one [FormatString] call:
    the known flags it reported as set, in query order, and its answers to
    [Width] and [Precision]. *)
Record Answers := mkAnswers {
  setFlags : list rune;
  widthAns : int * bool;
  precAns : int * bool
}.

Section Queries.
Context {S : Type} `{State S}.

Definition collectFlag (acc : list rune) (c : rune) : state S (list rune) :=
  f <- Flag c ;;
  ret (if f : bool then (acc ++ [c])%list else acc).

Definition queryFlags : state S (list rune) :=
  forRange collectFlag knownFlags [].

(** The queries of [FormatString], in the order it makes them. *)
Definition queryAll : state S Answers :=
  fl <- queryFlags ;;
  w <- Width ;;
  p <- Precision ;;
  ret (mkAnswers fl w p).

(** The answers given from state [s], and single answers from [s]. *)
Definition answers (s : S) : Answers := fst (runState queryAll s).
Definition widthOf (s : S) : int * bool := fst (runState Width s).
Definition precisionOf (s : S) : int * bool := fst (runState Precision s).
Definition flagOf (s : S) (c : int) : bool := fst (runState (Flag c) s).

(** A computation that leaves the state object as it found it. *)
Definition readonly {A : Type} (m : state S A) : Prop :=
  forall s : S, snd (runState m s) = s.

(** The law of a state whose queries only report. *)
Record ReadOnlyQueries : Prop := {
  Width_readonly : readonly Width;
  Precision_readonly : readonly Precision;
  Flag_readonly : forall c : int, readonly (Flag c)
}.

(** The result of [FormatString] on [s], as a string. *)
Definition formatted (s : S) (verb : rune) : string :=
  fst (runState (FormatString verb) s).

End Queries.
Arguments ReadOnlyQueries S {_}.

(** [strconv.Itoa]-style text of an [int64]. *)
Definition itoa (i : Z) : string := string_of_bytes (formatBits i).

Definition flagText (fl : list rune) : string :=
  string_of_bytes (map byte_of fl).
Definition widthText (w : int * bool) : string :=
  if snd w then itoa (int64 (fst w)) else "".
Definition precText (p : int * bool) : string :=
  if snd p then "." ++ itoa (int64 (fst p)) else "".
Definition verbText (verb : rune) : string :=
  string_of_bytes (utf8.encode verb).

(** The directive text for given answers: percent sign, flags, width,
    precision, verb. *)
Definition render (a : Answers) (verb : rune) : string :=
  "%" ++ flagText (setFlags a) ++ widthText (widthAns a)
      ++ precText (precAns a) ++ verbText verb.

(** The same text as bytes, and the slice that holds those bytes when they
    were appended to the empty slice of a 16-byte local array. *)
Definition renderBytes (a : Answers) (verb : rune) : list byte :=
  ("%"%char :: map byte_of (setFlags a))
  ++ (if snd (widthAns a) then formatBits (int64 (fst (widthAns a))) else [])
  ++ (if snd (precAns a)
      then "."%char :: formatBits (int64 (fst (precAns a))) else [])
  ++ utf8.encode verb.

Definition scratch (l : list byte) : slice := append (local_array 16) l.

(* ===================================================================== *)
(** ** Reference notions the properties are stated against *)
(* ===================================================================== *)

(** Decimal digits and the number a digit string denotes. *)
Definition isDigit (b : byte) : bool := (48 <=? byteval b) && (byteval b <=? 57).

Definition valueFrom (acc : Z) (l : list byte) : Z :=
  fold_left (fun v d => v * 10 + (byteval d - 48)) l acc.

Definition decimalValue (l : list byte) : Z := valueFrom 0 l.

(** [l] is the decimal numeral of the natural number [u]: digits only, at
    least one, denoting [u], with no leading zero except for zero itself. *)
Definition canonicalDigits (u : Z) (l : list byte) : Prop :=
  l <> [] /\ forallb isDigit l = true /\ decimalValue l = u
  /\ (hd "0"%char l = "0"%char -> l = ["0"%char]).

(** [t] is the signed decimal rendering of [i]: a minus sign exactly when
    [i] is negative, then the numeral of its magnitude. *)
Definition decimalOf (i : Z) (t : string) : Prop :=
  exists ds : list byte,
    bytes_of_string t = ((if i <? 0 then ["-"%char] else []) ++ ds)%list
    /\ canonicalDigits (Z.abs i) ds.

(** The UTF-8 encoding of a Unicode scalar value as RFC 3629 tabulates it:
    the number of bytes by range, the payload bits by division. *)
Definition utf8_encoding (r : Z) : list byte :=
  if r <? 128 then [mkbyte r]
  else if r <? 2048 then [mkbyte (192 + r / 64); mkbyte (128 + r mod 64)]
  else if r <? 65536 then
    [mkbyte (224 + r / 4096); mkbyte (128 + (r / 64) mod 64);
     mkbyte (128 + r mod 64)]
  else
    [mkbyte (240 + r / 262144); mkbyte (128 + (r / 4096) mod 64);
     mkbyte (128 + (r / 64) mod 64); mkbyte (128 + r mod 64)].

(** [p] is a prefix of [l]. *)
Definition prefix (p l : list byte) : Prop := exists rest, l = (p ++ rest)%list.

(** Whether a decimal digit occurs in [out] before its final verb, that is,
    in what remains when the verb's encoding is taken off the end. *)
Definition beforeVerb (out : string) (verb : rune) : list byte :=
  let b := bytes_of_string out in
  firstn (List.length b - List.length (utf8.encode verb)) b.

Definition digitBeforeVerb (out : string) (verb : rune) : bool :=
  existsb isDigit (beforeVerb out verb).

(* ===================================================================== *)
(** ** Choosing how an operand is rendered *)
(* ===================================================================== *)

(** Modelled from the spec: an operand as the dispatcher sees it, a value
    together with the capabilities its type provides.  The dispatcher of
    the package is declared outside the file embedded here; only the
    [Stringer] and [GoStringer] interfaces are in it.  [asFormatter] records
    whether the value has the full custom format capability. *)
Record Operand := mkOperand {
  carrier : Type;
  value : carrier;
  asFormatter : bool;
  asStringer : option (Stringer carrier);
  asGoStringer : option (GoStringer carrier)
}.

(** Modelled from the spec: the rendering paths of the dispatcher. *)
Inductive Path :=
| ViaFormatter                  (* the value's own Format method *)
| ViaGoStringer (text : string) (* the result of GoString() *)
| ViaStringer (text : string)   (* the result of String() *)
| ViaBuiltIn.                   (* the structural renderer *)

(** Modelled from the spec: the directive is the syntax directive when the
    verb is [v] and the [#] flag is set. *)
Definition sharpV (c : FormattingContext) (verb : rune) : bool :=
  flagOf c 35 && (verb =? 118).

(** Modelled from the spec: the precedence of section 4.3.  A full custom
    format capability wins; otherwise the syntax form is consulted for the
    syntax directive and the plain string form for the verbs that accept a
    string ([acceptsString], which the design does not enumerate);
    otherwise the built-in renderer is used. *)
Definition handleMethods (acceptsString : rune -> bool)
    (c : FormattingContext) (arg : Operand) (verb : rune) : Path :=
  if asFormatter arg then ViaFormatter
  else if sharpV c verb then
    match asGoStringer arg with
    | Some g => ViaGoStringer (@GoString _ g (value arg))
    | None => ViaBuiltIn
    end
  else if acceptsString verb then
    match asStringer arg with
    | Some st => ViaStringer (@String _ st (value arg))
    | None => ViaBuiltIn
    end
  else ViaBuiltIn.

(** A sample operand type with both string capabilities. *)
Inductive Weekday := Monday | Friday.

#[export] Instance Weekday_Stringer : Stringer Weekday :=
  {| String := fun d => match d with Monday => "Monday" | Friday => "Friday" end |}.

#[export] Instance Weekday_GoStringer : GoStringer Weekday :=
  {| GoString := fun d =>
       match d with Monday => "time.Monday" | Friday => "time.Friday" end |}.

Definition weekday (d : Weekday) : Operand :=
  mkOperand Weekday d false (Some Weekday_Stringer) (Some Weekday_GoStringer).

(** A sample choice of verbs that accept a string: v, s, x, X and q. *)
Definition stringVerb (verb : rune) : bool :=
  existsb (Z.eqb verb) (runes_of_ascii "vsxXq").

(** The diagnostic fragments of the constant block, in declaration order. *)
Definition diagnosticFragments : list string :=
  [ nilAngleString; nilParenString; nilString; mapString; percentBangString;
    missingString; badIndexString; panicString; extraString; badWidthString;
    badPrecString; noVerbString ].

(* ===================================================================== *)
(** ** A state that records the calls made on it *)
(* ===================================================================== *)

(** The calls a user of a [State] can make. *)
Inductive Call :=
| CallWrite (b : list byte)
| CallWidth
| CallPrecision
| CallFlag (c : int).

(** [m] run on the underlying state, with [call] added to the record. *)
Definition logged {S A : Type} (call : Call) (m : state S A)
  : state (S * list Call) A :=
  mkState (fun sl =>
    let (a, s') := runState m (fst sl) in (a, (s', (snd sl ++ [call])%list))).

(** Any implementation of [State], wrapped so that every call is noted, in
    order, before it is passed on. *)
#[export] Instance Logged_State {S : Type} `{State S} : State (S * list Call) :=
  {| Write := fun b => logged (CallWrite b) (Write b);
     Width := logged CallWidth Width;
     Precision := logged CallPrecision Precision;
     Flag := fun c => logged (CallFlag c) (Flag c) |}.

(* ===================================================================== *)
(** ** Notions for the further properties *)
(* ===================================================================== *)

(** The bytes that can follow the percent sign before the verb: the five
    flags, the digits, the dot and the minus sign of a negative number. *)
Definition directiveAlphabet : list byte := bytes_of_string " +-#0123456789.".

(** A byte below 0x80. *)
Definition isASCII (b : byte) : bool := byteval b <? 128.

(** [writeRune] for each rune of a list in turn, and [writeByte] for each
    byte. *)
Definition writeRunes (b : buffer) (rs : list rune) : buffer :=
  fold_left buffer_.writeRune rs b.


(** The byte of one of the known flags. *)
Definition isFlagByte (b : byte) : bool :=
  existsb (Ascii.eqb b) (map byte_of knownFlags).

(** A width that, when present, is a positive [int64]; a precision that,
    when present, is an [int64]. *)
Definition positiveWidth (a : Answers) : Prop :=
  snd (widthAns a) = true -> 1 <= fst (widthAns a) < 2 ^ 63.

Definition int64Precision (a : Answers) : Prop :=
  snd (precAns a) = true -> - 2 ^ 63 <= fst (precAns a) < 2 ^ 63.

(** Two answers to [Width] (or [Precision]) that agree on whether the
    option is set and, when it is, on its value. *)
Definition sameOption (x y : int * bool) : Prop :=
  snd x = snd y /\ (snd x = true -> fst x = fst y).

(* ===================================================================== *)
(** * Properties *)
(* ===================================================================== *)

(** ** Strings and slices *)

Lemma string_of_bytes_app (a b : list byte) :
  string_of_bytes (a ++ b) = string_of_bytes a ++ string_of_bytes b.
Proof.
  unfold string_of_bytes. induction a as [|x a IH]; simpl; [reflexivity|].
  now rewrite IH.
Qed.

Lemma string_length_of_bytes (a : list byte) :
  String.length (string_of_bytes a) = List.length a.
Proof.
  unfold string_of_bytes. induction a as [|x a IH]; simpl; congruence.
Qed.

Lemma string_length_app (s t : string) :
  String.length (s ++ t) = (String.length s + String.length t)%nat.
Proof. induction s as [|c s IH]; simpl; congruence. Qed.

Lemma elems_append (s : slice) (p : list byte) :
  elems (append s p) = (elems s ++ p)%list.
Proof. unfold append. destruct (store s); reflexivity. Qed.

(** Two appends in a row leave the slice where one append of both would. *)
Lemma append_append (s : slice) (p q : list byte) :
  append (append s p) q = append s (p ++ q).
Proof.
  unfold append. destruct (store s) as [c|]; simpl; [|now rewrite app_assoc].
  rewrite <- app_assoc.
  destruct (Nat.leb_spec (List.length (elems s ++ p)) c) as [Hin|Hout]; simpl;
    [reflexivity|].
  destruct (Nat.leb_spec (List.length (elems s ++ p ++ q)) c) as [Hin'|_];
    [|reflexivity].
  rewrite app_assoc, (length_app (elems s ++ p)) in Hin'. lia.
Qed.

Lemma scratch_append (l p : list byte) : append (scratch l) p = scratch (l ++ p).
Proof. apply append_append. Qed.

Lemma scratch_append_if (c : bool) (l p : list byte) :
  (if c then append (scratch l) p else scratch l)
  = scratch (l ++ if c then p else []).
Proof. destruct c; [apply scratch_append | now rewrite app_nil_r]. Qed.

Lemma elems_scratch (l : list byte) : elems (scratch l) = l.
Proof. reflexivity. Qed.

Lemma store_scratch (l : list byte) :
  store (scratch l) = if (List.length l <=? 16)%nat then Local 16 else Heap.
Proof. reflexivity. Qed.

Lemma render_bytes (a : Answers) (verb : rune) :
  render a verb = string_of_bytes (renderBytes a verb).
Proof.
  unfold render, renderBytes, flagText, widthText, precText, verbText, itoa.
  rewrite !string_of_bytes_app. cbn [app string_of_bytes string_of_list_ascii].
  change (string_of_list_ascii ?l) with (string_of_bytes l).
  destruct (snd (widthAns a)), (snd (precAns a)); reflexivity.
Qed.

(** ** The state monad *)

Lemma runState_bind {S A B} (m : state S A) (k : A -> state S B) (s : S) :
  runState (bind m k) s = runState (k (fst (runState m s))) (snd (runState m s)).
Proof. simpl. now destruct (runState m s). Qed.

Lemma runState_ret {S A} (a : A) (s : S) : runState (ret a) s = (a, s).
Proof. reflexivity. Qed.

(** ** FormatString factors through the answers *)

Section Factor.
Context {S : Type} `{State S}.

Lemma flag_loop (l : list rune) :
  forall (pre : list byte) (acc : list rune) (s : S),
    runState (forRange appendFlag l (scratch (pre ++ map byte_of acc))) s =
    (scratch (pre ++ map byte_of (fst (runState (forRange collectFlag l acc) s))),
     snd (runState (forRange collectFlag l acc) s)).
Proof.
  induction l as [|c l IH]; intros pre acc s; [reflexivity|].
  cbn [forRange]. rewrite !runState_bind.
  assert (Ha : runState (appendFlag (scratch (pre ++ map byte_of acc)) c) s =
               (if flagOf s c then scratch (pre ++ map byte_of (acc ++ [c]))
                else scratch (pre ++ map byte_of acc),
                snd (runState (Flag c) s))).
  { unfold appendFlag, flagOf. rewrite runState_bind, runState_ret.
    destruct (fst (runState (Flag c) s)); [|reflexivity].
    now rewrite scratch_append, map_app, app_assoc. }
  assert (Hc : runState (collectFlag acc c) s =
               (if flagOf s c then (acc ++ [c])%list else acc,
                snd (runState (Flag c) s))).
  { unfold collectFlag, flagOf. rewrite runState_bind, runState_ret.
    now destruct (fst (runState (Flag c) s)). }
  rewrite Ha, Hc. cbn [fst snd].
  destruct (flagOf s c); apply IH.
Qed.

Lemma formatDirective_factors (verb : rune) (s : S) :
  runState (formatDirective verb) s =
  (scratch (bytes_of_string (render (answers s) verb)),
   snd (runState queryAll s)).
Proof.
  unfold formatDirective, answers, queryAll, queryFlags.
  rewrite !runState_bind.
  pose proof (flag_loop knownFlags ["%"%char] [] s) as Hloop.
  change (scratch (["%"%char] ++ map byte_of []))
    with (append (local_array 16) ["%"%char]) in Hloop.
  rewrite Hloop. clear Hloop. cbn [fst snd].
  destruct (runState (forRange _ knownFlags []) s) as [fl s1]. cbn [fst snd].
  destruct (@runState S (Z * bool) Width s1) as [[w ok] s2]. cbn [fst snd].

  cbn [bind ret Monad_state runState fst snd].
  destruct (@runState S (Z * bool) Precision s2) as [[p ok'] s3].
  cbn [fst snd].
  rewrite render_bytes. f_equal.
  unfold bytes_of_string, string_of_bytes.
  rewrite list_ascii_of_string_of_list_ascii.
  unfold utf8.AppendRune, AppendInt, renderBytes. cbn [setFlags widthAns precAns fst snd].
  destruct ok, ok'; rewrite ?scratch_append; f_equal;
    rewrite <- ?app_assoc; cbn [app]; rewrite ?app_nil_r; reflexivity.
Qed.
End Factor.

(** ** Decimal rendering *)

Lemma byteval_mkbyte (z : Z) : 0 <= z < 256 -> byteval (mkbyte z) = z.
Proof.
  intros Hz. unfold byteval, mkbyte. rewrite N_ascii_embedding; lia.
Qed.

Lemma isDigit_digit (d : Z) : 0 <= d <= 9 -> isDigit (digit d) = true.
Proof.
  intros Hd. unfold isDigit, digit. rewrite byteval_mkbyte by lia.
  apply andb_true_intro; split; apply Z.leb_le; lia.
Qed.

Lemma formatDigits_acc (fuel : nat) :
  forall u a, formatDigits fuel u a = (formatDigits fuel u [] ++ a)%list.
Proof.
  induction fuel as [|fuel IH]; intros u a; simpl; [reflexivity|].
  destruct (10 <=? u); [|reflexivity].
  rewrite (IH _ (_ :: a)), (IH _ [_]), <- app_assoc. reflexivity.
Qed.

Lemma formatDigits_all_digits (fuel : nat) :
  forall u a, 0 <= u -> forallb isDigit a = true ->
    forallb isDigit (formatDigits fuel u a) = true.
Proof.
  induction fuel as [|fuel IH]; intros u a Hu Ha; simpl; [exact Ha|].
  destruct (Z.leb_spec 10 u) as [Hge|Hlt].
  - apply IH; [apply Z.div_pos; lia|]. simpl. rewrite Ha, isDigit_digit; [reflexivity|].
    pose proof (Z.mod_pos_bound u 10 ltac:(lia)).
    pose proof (Z.div_mod u 10 ltac:(lia)). lia.
  - simpl. now rewrite isDigit_digit, Ha by lia.
Qed.

Lemma formatDigits_value (fuel : nat) :
  forall u a, 0 <= u < 10 ^ Z.of_nat fuel ->
    valueFrom 0 (formatDigits fuel u a) = valueFrom u a.
Proof.
  induction fuel as [|fuel IH]; intros u a Hu; simpl.
  - change (10 ^ Z.of_nat 0) with 1 in Hu. now replace u with 0 by lia.
  - rewrite Nat2Z.inj_succ, Z.pow_succ_r in Hu by lia.
    destruct (Z.leb_spec 10 u) as [Hge|Hlt].
    + pose proof (Z.mod_pos_bound u 10 ltac:(lia)).
      pose proof (Z.div_mod u 10 ltac:(lia)).
      rewrite IH by (split; [apply Z.div_pos; lia | apply Z.div_lt_upper_bound; lia]).
      unfold valueFrom. simpl. unfold digit. rewrite byteval_mkbyte by lia.
      f_equal. lia.
    + unfold valueFrom. simpl. unfold digit. rewrite byteval_mkbyte by lia.
      f_equal. lia.
Qed.

Lemma formatDigits_head (fuel : nat) :
  forall u a, 1 <= u < 10 ^ Z.of_nat fuel ->
    exists d rest, formatDigits fuel u a = digit d :: rest /\ 1 <= d <= 9.
Proof.
  induction fuel as [|fuel IH]; intros u a Hu.
  - change (10 ^ Z.of_nat 0) with 1 in Hu. lia.
  - rewrite Nat2Z.inj_succ, Z.pow_succ_r in Hu by lia. simpl.
    destruct (Z.leb_spec 10 u) as [Hge|Hlt].
    + apply IH. split; [|apply Z.div_lt_upper_bound; lia].
      apply Z.div_le_lower_bound; lia.
    + exists u, a. split; [reflexivity | lia].
Qed.

Lemma digit_zero_inv (d : Z) : 0 <= d <= 9 -> digit d = "0"%char -> d = 0.
Proof.
  intros Hd E. apply (f_equal byteval) in E. unfold digit in E.
  rewrite byteval_mkbyte in E by lia. change (byteval "0"%char) with 48 in E. lia.
Qed.

Lemma formatDigits_canonical (u : Z) :
  0 <= u < 2 ^ 64 -> canonicalDigits u (formatDigits 20 u []).
Proof.
  intros Hu.
  assert (Hfuel : 0 <= u < 10 ^ Z.of_nat 20) by (change (10 ^ Z.of_nat 20) with (10 ^ 20); lia).
  repeat split.
  - destruct (Z.eq_dec u 0) as [->|Hnz]; [discriminate|].
    destruct (formatDigits_head 20 u [] ltac:(lia)) as (d & rest & -> & _).
    discriminate.
  - apply formatDigits_all_digits; [lia | reflexivity].
  - unfold decimalValue. now rewrite formatDigits_value.
  - destruct (Z.eq_dec u 0) as [->|Hnz]; [reflexivity|].
    destruct (formatDigits_head 20 u [] ltac:(lia)) as (d & rest & -> & Hd).
    simpl. intros E. apply digit_zero_inv in E; lia.
Qed.

Lemma int64_range (z : Z) : - 2 ^ 63 <= int64 z < 2 ^ 63.
Proof.
  unfold int64. pose proof (Z.mod_pos_bound (z + 2 ^ 63) (2 ^ 64) ltac:(lia)). lia.
Qed.

Lemma int64_id (z : Z) : - 2 ^ 63 <= z < 2 ^ 63 -> int64 z = z.
Proof. intros Hz. unfold int64. rewrite Z.mod_small; lia. Qed.

Lemma formatBits_magnitude (i : Z) :
  - 2 ^ 63 <= i < 2 ^ 63 ->
  formatBits i =
  ((if i <? 0 then ["-"%char] else []) ++ formatDigits 20 (Z.abs i) [])%list.
Proof.
  intros Hi. unfold formatBits, uint64.
  destruct (Z.ltb_spec i 0) as [Hneg|Hpos].
  - replace ((- (i mod 2 ^ 64)) mod 2 ^ 64) with (Z.abs i); [reflexivity|].
    replace (i mod 2 ^ 64) with (i + 2 ^ 64).
    + replace (- (i + 2 ^ 64)) with (- i + (-1) * 2 ^ 64) by lia.
      rewrite Z.mod_add, Z.mod_small; lia.
    + apply Z.mod_unique with (q := -1); lia.
  - rewrite Z.mod_small, Z.abs_eq by lia. reflexivity.
Qed.

(** The text [strconv] produces is the signed decimal rendering. *)
Lemma itoa_decimal (i : Z) : - 2 ^ 63 <= i < 2 ^ 63 -> decimalOf i (itoa i).
Proof.
  intros Hi. exists (formatDigits 20 (Z.abs i) []). split.
  - unfold itoa, bytes_of_string, string_of_bytes.
    rewrite list_ascii_of_string_of_list_ascii. now apply formatBits_magnitude.
  - apply formatDigits_canonical. lia.
Qed.

(** ** UTF-8 *)

Lemma lor_high_low (a x n : Z) :
  0 <= n -> 0 <= x < 2 ^ n -> Z.lor (a * 2 ^ n) x = a * 2 ^ n + x.
Proof.
  intros Hn Hx. rewrite <- (Z.add_lor_land (a * 2 ^ n) x).
  assert (E : Z.land (a * 2 ^ n) x = 0); [|lia].
  apply Z.bits_inj'. intros m Hm. rewrite Z.land_spec, Z.bits_0.
  destruct (Z.ltb_spec m n) as [Hlow|Hhigh].
  - now rewrite Z.mul_pow2_bits_low.
  - destruct (Z.eq_dec x 0) as [->|Hnz]; [now rewrite Z.bits_0, andb_false_r|].
    rewrite (Z.bits_above_log2 x m), andb_false_r; [reflexivity | lia |].
    apply Z.log2_lt_pow2; [lia|].
    apply Z.lt_le_trans with (2 ^ n); [lia|].
    apply Z.pow_le_mono_r; lia.
Qed.

Lemma land_maskx (y : Z) : Z.land (uint8 y) utf8.maskx = y mod 64.
Proof.
  unfold uint8. change utf8.maskx with (Z.ones 6).
  rewrite Z.land_ones by lia.
  apply Z.mod_mod_divide. exists 4. reflexivity.
Qed.

Lemma cont_arith (r k : Z) :
  utf8.cont r k = mkbyte (128 + (Z.shiftr r k) mod 64).
Proof.
  unfold utf8.cont. rewrite land_maskx. f_equal.
  change utf8.tx with (1 * 2 ^ 7). rewrite lor_high_low; [reflexivity | lia |].
  pose proof (Z.mod_pos_bound (Z.shiftr r k) 64 ltac:(lia)). lia.
Qed.

Lemma lead_arith (a n r k : Z) :
  0 <= n <= 8 -> 0 <= k -> 0 <= r < 2 ^ (n + k) ->
  utf8.lead (a * 2 ^ n) r k = mkbyte (a * 2 ^ n + r / 2 ^ k).
Proof.
  intros Hn Hk Hr. unfold utf8.lead, uint8. rewrite Z.shiftr_div_pow2 by lia.
  assert (Hq : 0 <= r / 2 ^ k < 2 ^ n).
  { split; [apply Z.div_pos; lia|].
    apply Z.div_lt_upper_bound; [lia|]. rewrite <- Z.pow_add_r by lia.
    now rewrite (Z.add_comm k n). }
  assert (2 ^ n <= 2 ^ 8) by (apply Z.pow_le_mono_r; lia).
  rewrite Z.mod_small by lia. now rewrite lor_high_low by lia.
Qed.

(** On every valid rune [utf8.encode] is the UTF-8 encoding. *)
Lemma encode_is_utf8 (r : rune) :
  utf8.ValidRune r = true -> utf8.encode r = utf8_encoding r.
Proof.
  unfold utf8.ValidRune, utf8.surrogateMin, utf8.surrogateMax, utf8.MaxRune.
  intros Hv.
  assert (Hr : 0 <= r <= 1114111 /\ ~ (55296 <= r <= 57343)) by lia.
  clear Hv. destruct Hr as [Hr Hs].
  unfold utf8.encode, utf8.encodeNonASCII, utf8_encoding, utf8.encode3, uint32,
    utf8.rune1Max, utf8.rune2Max, utf8.rune3Max, utf8.MaxRune,
    utf8.surrogateMin, utf8.surrogateMax.
  rewrite (Z.mod_small r (2 ^ 32)) by lia.
  rewrite !cont_arith, !Z.shiftr_div_pow2 by lia.
  change (2 ^ 0) with 1. rewrite Z.div_1_r.
  change (2 ^ 6) with 64. change (2 ^ 12) with 4096. change (2 ^ 18) with 262144.
  destruct (Z.leb_spec r 127); destruct (Z.ltb_spec r 128); try lia.
  - unfold byte_of, uint8. now rewrite Z.mod_small by lia.
  - destruct (Z.leb_spec r 2047); destruct (Z.ltb_spec r 2048); try lia.
    + change utf8.t2 with (3 * 2 ^ 6).
      rewrite (lead_arith 3 6 r 6) by (simpl; lia). reflexivity.
    + destruct (Z.ltb_spec 1114111 r); [lia|].
      destruct (Z.leb_spec 55296 r); destruct (Z.leb_spec r 57343);
        try lia; cbn [orb andb];
        destruct (Z.leb_spec r 65535); destruct (Z.ltb_spec r 65536); try lia.
      all: try (change utf8.t3 with (14 * 2 ^ 4);
                rewrite (lead_arith 14 4 r 12) by (simpl; lia); reflexivity).
      all: change utf8.t4 with (30 * 2 ^ 3);
           rewrite (lead_arith 30 3 r 18) by (simpl; lia); reflexivity.
Qed.

(** Anything that is not a valid rune is encoded as U+FFFD. *)
Lemma encode_invalid (r : rune) :
  - 2 ^ 31 <= r < 2 ^ 31 -> utf8.ValidRune r = false ->
  utf8.encode r = utf8.encode utf8.RuneError.
Proof.
  unfold utf8.ValidRune, utf8.surrogateMin, utf8.surrogateMax, utf8.MaxRune.
  intros Hr Hv.
  assert (Hi : 1114111 < uint32 r \/ 55296 <= uint32 r <= 57343).
  { unfold uint32. destruct (Z.ltb_spec r 0) as [Hneg|Hpos].
    - left. replace (r mod 2 ^ 32) with (r + 2 ^ 32);
        [lia | apply Z.mod_unique with (q := -1); lia].
    - rewrite Z.mod_small by lia. lia. }
  unfold utf8.encode, utf8.encodeNonASCII, utf8.rune1Max, utf8.rune2Max,
    utf8.MaxRune, utf8.surrogateMin, utf8.surrogateMax.
  destruct (Z.leb_spec (uint32 r) 127); [lia|].
  destruct (Z.leb_spec (uint32 r) 2047); [lia|].
  destruct (Z.ltb_spec 1114111 (uint32 r)); [reflexivity|].
  destruct (Z.leb_spec 55296 (uint32 r)); destruct (Z.leb_spec (uint32 r) 57343);
    try lia. reflexivity.
Qed.

Lemma encode_length (r : rune) : (1 <= List.length (utf8.encode r) <= 4)%nat.
Proof.
  unfold utf8.encode, utf8.encodeNonASCII.
  repeat match goal with |- context [if ?c then _ else _] => destruct c end;
    simpl; lia.
Qed.

(** ** Answers of a state whose queries only report *)

Section Answers.
Context {S : Type} `{State S}.

Lemma collect_members (l : list rune) :
  forall (acc : list rune) (s : S) (c : rune),
    In c (fst (runState (forRange collectFlag l acc) s)) -> In c acc \/ In c l.
Proof.
  induction l as [|x l IH]; intros acc s c Hin; [now left|].
  cbn [forRange] in Hin. rewrite runState_bind in Hin.
  apply IH in Hin. destruct Hin as [Hin|Hin]; [|right; now right].
  unfold collectFlag in Hin. rewrite runState_bind, runState_ret in Hin.
  cbn [fst] in Hin. destruct (fst (runState (Flag x) s)); [|now left].
  apply in_app_or in Hin. destruct Hin as [Hin|[->|[]]]; [now left|].
  right. now left.
Qed.

Lemma collect_length (l : list rune) :
  forall (acc : list rune) (s : S),
    (List.length (fst (runState (forRange collectFlag l acc) s))
     <= List.length acc + List.length l)%nat.
Proof.
  induction l as [|x l IH]; intros acc s; [simpl; lia|].
  cbn [forRange]. rewrite runState_bind.
  etransitivity; [apply IH|].
  unfold collectFlag. rewrite runState_bind, runState_ret. cbn [fst].
  destruct (fst (runState (Flag x) s)); rewrite ?length_app; simpl; lia.
Qed.

Lemma collect_readonly (l : list rune) :
  (forall c, readonly (Flag c)) ->
  forall (acc : list rune) (s : S),
    runState (forRange collectFlag l acc) s = ((acc ++ filter (flagOf s) l)%list, s).
Proof.
  intros Hro. induction l as [|x l IH]; intros acc s.
  - simpl. now rewrite app_nil_r.
  - cbn [forRange]. rewrite runState_bind.
    unfold collectFlag at 2 3. rewrite runState_bind, runState_ret.
    cbn [fst snd]. rewrite (Hro x s), IH. cbn [filter].
    fold (flagOf s x). destruct (flagOf s x); [|reflexivity].
    now rewrite <- app_assoc.
Qed.

(** Whatever the state does when queried, the flags collected from a list
    without repetitions are a selection from that list, in its order. *)
Lemma collect_selection (l : list rune) :
  NoDup l ->
  forall (acc : list rune) (s : S),
    exists f : rune -> bool,
      fst (runState (forRange collectFlag l acc) s) = (acc ++ filter f l)%list.
Proof.
  induction 1 as [|x l Hx Hnd IH]; intros acc s.
  - exists (fun _ => false). simpl. now rewrite app_nil_r.
  - cbn [forRange]. rewrite runState_bind.
    destruct (IH (fst (runState (collectFlag acc x) s))
                 (snd (runState (collectFlag acc x) s))) as [f Hf].
    rewrite Hf. unfold collectFlag. rewrite runState_bind, runState_ret.
    cbn [fst]. set (b := fst (runState (Flag x) s)).
    exists (fun c => if c =? x then b else f c).
    cbn [filter]. rewrite Z.eqb_refl.
    assert (E : filter (fun c => if c =? x then b else f c) l = filter f l).
    { apply filter_ext_in. intros c Hc.
      destruct (Z.eqb_spec c x) as [->|_]; [contradiction | reflexivity]. }
    rewrite E. destruct b; [now rewrite <- app_assoc | reflexivity].
Qed.

Lemma knownFlags_NoDup : NoDup knownFlags.
Proof.
  repeat constructor; simpl; intuition discriminate.
Qed.

Lemma setFlags_selection (s : S) :
  exists f : rune -> bool, setFlags (answers s) = filter f knownFlags.
Proof.
  unfold answers, queryAll, queryFlags. rewrite !runState_bind, runState_ret.
  cbn [fst setFlags]. apply (collect_selection knownFlags knownFlags_NoDup [] s).
Qed.

(** Every flag [FormatString] emits is one of the known flags, and there
    are at most five of them. *)
Lemma setFlags_known (s : S) (c : rune) :
  In c (setFlags (answers s)) -> In c knownFlags.
Proof.
  unfold answers, queryAll, queryFlags. rewrite !runState_bind, runState_ret.
  cbn [fst setFlags]. intros Hin. apply collect_members in Hin.
  now destruct Hin as [[]|Hin].
Qed.

Lemma setFlags_count (s : S) : (List.length (setFlags (answers s)) <= 5)%nat.
Proof.
  unfold answers, queryAll, queryFlags. rewrite !runState_bind, runState_ret.
  cbn [fst setFlags]. apply (collect_length knownFlags [] s).
Qed.

Lemma queryAll_readonly (s : S) :
  ReadOnlyQueries S ->
  runState queryAll s =
  (mkAnswers (filter (flagOf s) knownFlags) (widthOf s) (precisionOf s), s).
Proof.
  intros [Hw Hp Hf]. unfold queryAll, queryFlags.
  rewrite !runState_bind, runState_ret.
  rewrite (collect_readonly knownFlags Hf [] s). cbn [fst snd app].
  rewrite (Hw s), (Hp s). reflexivity.
Qed.

Lemma formatted_render (s : S) (verb : rune) :
  formatted s verb = render (answers s) verb.
Proof.
  unfold formatted, FormatString. rewrite runState_bind, runState_ret.
  rewrite formatDirective_factors. cbn [fst]. rewrite elems_scratch.
  apply string_of_list_ascii_of_string.
Qed.

End Answers.

(** ** The printer state *)

Lemma context_readonly : ReadOnlyQueries FormattingContext.
Proof. split; repeat intro; reflexivity. Qed.

Lemma context_answers (c : FormattingContext) :
  answers c =
  mkAnswers (filter (flagOf c) knownFlags)
            (ctx.report (width (options c))) (ctx.report (precision (options c))).
Proof.
  unfold answers. now rewrite (queryAll_readonly c context_readonly).
Qed.

(** ** Canonical flag order *)

Lemma selection_same_members {A : Type} (f g : A -> bool) (l : list A) :
  (forall c, In c (filter f l) <-> In c (filter g l)) ->
  filter f l = filter g l.
Proof.
  intros Hsame. apply filter_ext_in. intros c Hc.
  specialize (Hsame c). rewrite !filter_In in Hsame.
  destruct (f c), (g c); try reflexivity; intuition congruence.
Qed.

Lemma context_setFlags (k : buffer) (fl : list rune) (w p : option int) :
  setFlags (answers (mkContext k (mkOptionSet fl w p)))
  = filter (fun c => existsb (Z.eqb c) fl) knownFlags.
Proof. now rewrite context_answers. Qed.

Lemma existsb_eqb_In (c : rune) (fl : list rune) :
  existsb (Z.eqb c) fl = true <-> In c fl.
Proof.
  rewrite existsb_exists. split.
  - intros (x & Hin & E). apply Z.eqb_eq in E. now subst.
  - intros Hin. exists c. split; [assumption | apply Z.eqb_refl].
Qed.

(** C1: two states whose set flags are the same subset of the known flags
    and that agree on width and precision reconstruct the same string for
    the same verb, and the set flags are emitted as a selection from space,
    plus, minus, sharp, zero in that order.  For printer states this holds
    whatever the order (and repetition) in which the directive supplied the
    flags. *)
Theorem flag_order_canonical (verb : rune) :
  (forall (S1 S2 : Type) (X1 : State S1) (X2 : State S2) (s1 : S1) (s2 : S2),
      (forall c, In c (setFlags (answers s1)) <-> In c (setFlags (answers s2))) ->
      widthAns (answers s1) = widthAns (answers s2) ->
      precAns (answers s1) = precAns (answers s2) ->
      formatted s1 verb = formatted s2 verb
      /\ (exists f, setFlags (answers s1) = filter f [32; 43; 45; 35; 48])
      /\ formatted s1 verb
         = "%" ++ flagText (setFlags (answers s1))
               ++ widthText (widthAns (answers s1))
               ++ precText (precAns (answers s1)) ++ verbText verb)
  /\ (forall (k1 k2 : buffer) (fl1 fl2 : list rune) (w p : option int),
      (forall c, In c [32; 43; 45; 35; 48] -> (In c fl1 <-> In c fl2)) ->
      formatted (mkContext k1 (mkOptionSet fl1 w p)) verb
      = formatted (mkContext k2 (mkOptionSet fl2 w p)) verb
      /\ setFlags (answers (mkContext k1 (mkOptionSet fl1 w p)))
         = filter (fun c => existsb (Z.eqb c) fl1) [32; 43; 45; 35; 48]).
Proof.
  split.
  - intros S1 S2 X1 X2 s1 s2 Hsame Ew Ep.
    assert (Efl : setFlags (answers s1) = setFlags (answers s2)).
    { destruct (setFlags_selection s1) as [f1 E1].
      destruct (setFlags_selection s2) as [f2 E2].
      rewrite E1, E2 in *. now apply selection_same_members. }
    split; [|split].
    + rewrite !formatted_render. unfold render. now rewrite Efl, Ew, Ep.
    + apply setFlags_selection.
    + apply formatted_render.
  - intros k1 k2 fl1 fl2 w p Hsame.
    split; [|apply context_setFlags].
    rewrite !formatted_render, !context_answers. cbn [options width precision].
    f_equal. f_equal. apply filter_ext_in. intros c Hc.
    specialize (Hsame c Hc). unfold flagOf. cbn.
    pose proof (existsb_eqb_In c fl1) as H1.
    pose proof (existsb_eqb_In c fl2) as H2.
    destruct (existsb (Z.eqb c) fl1), (existsb (Z.eqb c) fl2);
      try reflexivity; intuition congruence.
Qed.

(** The same flags in two different orders, one with a repetition. *)
Lemma flag_order_canonical_witness :
  (forall c, In c [32; 43; 45; 35; 48] ->
     (In c (runes_of_ascii "0-+0") <-> In c (runes_of_ascii "+0-")))
  /\ formatted (directive "0-+0" (Some 8) None) 100
     = formatted (directive "+0-" (Some 8) None) 100
  /\ formatted (directive "0-+0" (Some 8) None) 100 = "%+-08d".
Proof.
  assert (Hsame : forall c, In c [32; 43; 45; 35; 48] ->
            (In c (runes_of_ascii "0-+0") <-> In c (runes_of_ascii "+0-"))).
  { intros c _. vm_compute. intuition congruence. }
  split; [exact Hsame|].
  pose proof (proj2 (flag_order_canonical 100) (mkSlice [] Heap) (mkSlice [] Heap)
                (runes_of_ascii "0-+0") (runes_of_ascii "+0-")
                (Some 8) None Hsame) as (Heq & _).
  split; [exact Heq | reflexivity].
Defined.

(** ** The shape of the reconstructed directive *)

(** C2: for every state and verb the result is the percent sign, the flags
    the state reported as set, the width, the precision and the verb, in
    that order.  A present width is the decimal rendering of its value, a
    present precision is a dot followed by the decimal rendering of its
    value, an absent one contributes nothing, and the verb is the encoding
    of its code point (its UTF-8 encoding when it is a valid rune).  For a
    state whose queries only report, the flags, width and precision are the
    answers of that state.  With no flags, width 5 and precision 2 the verb
    [f] gives the string %5.2f. *)
Theorem FormatString_shape {S : Type} `{State S} (s : S) (verb : rune) :
  formatted s verb
  = "%" ++ flagText (setFlags (answers s)) ++ widthText (widthAns (answers s))
        ++ precText (precAns (answers s)) ++ verbText verb
  /\ (forall w : int, decimalOf (int64 w) (widthText (w, true))
                      /\ widthText (w, false) = "")
  /\ (forall p : int, exists t : string,
         precText (p, true) = "." ++ t /\ decimalOf (int64 p) t
         /\ precText (p, false) = "")
  /\ verbText verb = string_of_bytes (utf8.encode verb)
  /\ (utf8.ValidRune verb = true ->
      verbText verb = string_of_bytes (utf8_encoding verb))
  /\ (ReadOnlyQueries S ->
      answers s
      = mkAnswers (filter (flagOf s) [32; 43; 45; 35; 48])
                  (widthOf s) (precisionOf s))
  /\ formatted (directive "" (Some 5) (Some 2)) 102 = "%5.2f".
Proof.
  split; [apply formatted_render|].
  split; [intros w; split; [apply itoa_decimal, int64_range | reflexivity]|].
  split; [|split; [reflexivity|split; [|split; [|reflexivity]]]].
  - intros p. exists (itoa (int64 p)).
    split; [reflexivity|].
    split; [apply itoa_decimal, int64_range | reflexivity].
  - intros Hv. unfold verbText. now rewrite encode_is_utf8.
  - intros Hro. unfold answers. now rewrite (queryAll_readonly s Hro).
Qed.

(** The directive %+8.3f, with a valid verb and a state that only reports. *)
Lemma FormatString_shape_witness :
  utf8.ValidRune 102 = true
  /\ ReadOnlyQueries FormattingContext
  /\ answers (directive "+" (Some 8) (Some 3))
     = mkAnswers [43] (8, true) (3, true)
  /\ formatted (directive "+" (Some 8) (Some 3)) 102 = "%+8.3f".
Proof.
  pose proof (FormatString_shape (directive "+" (Some 8) (Some 3)) 102)
    as (Hshape & _ & _ & _ & _ & Hans & _).
  split; [reflexivity|]. split; [exact context_readonly|].
  split; [exact (Hans context_readonly) | exact Hshape].
Defined.

(** ** What the result depends on *)

(** C9: the result depends only on the verb and on the answers to [Width],
    [Precision] and [Flag] for the five known flags.  Two states, of any
    two implementations, that give the same answers to the queries of the
    call produce the same string; and for states whose queries only report,
    agreeing on [Width], [Precision] and the five known flags is enough, so
    that what a state answers for any other flag character does not
    matter. *)
Theorem FormatString_depends_on_answers
    {S1 S2 : Type} `{State S1} `{State S2} (s1 : S1) (s2 : S2) (verb : rune) :
  (answers s1 = answers s2 -> formatted s1 verb = formatted s2 verb)
  /\ (ReadOnlyQueries S1 -> ReadOnlyQueries S2 ->
      widthOf s1 = widthOf s2 -> precisionOf s1 = precisionOf s2 ->
      (forall c, In c [32; 43; 45; 35; 48] -> flagOf s1 c = flagOf s2 c) ->
      formatted s1 verb = formatted s2 verb).
Proof.
  split.
  - intros E. now rewrite !formatted_render, E.
  - intros R1 R2 Ew Ep Ef. rewrite !formatted_render. unfold answers.
    rewrite (queryAll_readonly s1 R1), (queryAll_readonly s2 R2). cbn [fst].
    now rewrite Ew, Ep, (filter_ext_in (flagOf s1) (flagOf s2) knownFlags Ef).
Qed.

(** A state that also reports the character [x] as a flag, against one that
    does not. *)
Lemma FormatString_depends_on_answers_witness :
  flagOf (directive "+x" (Some 3) None) 120 = true
  /\ flagOf (directive "+" (Some 3) None) 120 = false
  /\ widthOf (directive "+x" (Some 3) None) = widthOf (directive "+" (Some 3) None)
  /\ precisionOf (directive "+x" (Some 3) None)
     = precisionOf (directive "+" (Some 3) None)
  /\ formatted (directive "+x" (Some 3) None) 115
     = formatted (directive "+" (Some 3) None) 115.
Proof.
  split; [reflexivity|]. split; [reflexivity|].
  split; [reflexivity|]. split; [reflexivity|].
  apply (FormatString_depends_on_answers
           (directive "+x" (Some 3) None) (directive "+" (Some 3) None) 115).
  - exact context_readonly.
  - exact context_readonly.
  - reflexivity.
  - reflexivity.
  - intros c Hc. simpl in Hc.
    destruct Hc as [<-|[<-|[<-|[<-|[<-|[]]]]]]; reflexivity.
Defined.

(** ** Negative width and precision *)

(** C10: nothing checks the range of width or precision.  A state that
    reports a negative width as present gets the minus sign and the digits
    of its magnitude in the place of the width, and likewise for a negative
    precision after the dot; width -5 with no flags and no precision gives
    %-5 followed by the verb. *)
Theorem negative_width_rendered {S : Type} `{State S}
    (s : S) (verb : rune) (n : int) :
  - 2 ^ 63 <= n < 0 ->
  (widthAns (answers s) = (n, true) ->
   formatted s verb
   = "%" ++ flagText (setFlags (answers s))
         ++ ("-" ++ string_of_bytes (formatDigits 20 (- n) []))
         ++ precText (precAns (answers s)) ++ verbText verb)
  /\ (precAns (answers s) = (n, true) ->
      formatted s verb
      = "%" ++ flagText (setFlags (answers s))
            ++ widthText (widthAns (answers s))
            ++ ("." ++ "-" ++ string_of_bytes (formatDigits 20 (- n) []))
            ++ verbText verb)
  /\ canonicalDigits (- n) (formatDigits 20 (- n) [])
  /\ formatted (directive "" (Some (-5)) None) 100 = "%-5d".
Proof.
  intros Hn.
  assert (Ht : itoa (int64 n)
               = "-" ++ string_of_bytes (formatDigits 20 (- n) [])).
  { unfold itoa. rewrite int64_id, formatBits_magnitude by lia.
    destruct (Z.ltb_spec n 0); [|lia]. rewrite Z.abs_neq by lia. reflexivity. }
  repeat split.
  - intros E. rewrite formatted_render. unfold render, widthText.
    rewrite E. cbn [fst snd]. now rewrite Ht.
  - intros E. rewrite formatted_render. unfold render, precText at 1.
    rewrite E. cbn [fst snd]. now rewrite Ht.
  - apply formatDigits_canonical. lia.
  - apply formatDigits_canonical. lia.
  - apply formatDigits_canonical. lia.
  - apply formatDigits_canonical. lia.
Qed.

Lemma negative_width_rendered_witness :
  - 2 ^ 63 <= -12 < 0
  /\ widthAns (answers (directive "0" (Some (-12)) (Some 3))) = (-12, true)
  /\ formatted (directive "0" (Some (-12)) (Some 3)) 120 = "%0-12.3x".
Proof.
  split; [lia|]. split; [reflexivity|].
  pose proof (negative_width_rendered
                (directive "0" (Some (-12)) (Some 3)) 120 (-12)) as Hneg.
  destruct Hneg as [Hwidth _]; [lia|].
  apply Hwidth. reflexivity.
Defined.

(** ** Digits before the verb *)

Lemma beforeVerb_render (a : Answers) (verb : rune) :
  beforeVerb (render a verb) verb =
  (("%"%char :: map byte_of (setFlags a))
   ++ (if snd (widthAns a) then formatBits (int64 (fst (widthAns a))) else [])
   ++ (if snd (precAns a)
       then "."%char :: formatBits (int64 (fst (precAns a))) else []))%list.
Proof.
  unfold beforeVerb. rewrite render_bytes. unfold bytes_of_string, string_of_bytes.
  rewrite list_ascii_of_string_of_list_ascii. unfold renderBytes.
  rewrite !app_assoc. rewrite length_app, Nat.add_sub.
  rewrite firstn_app, Nat.sub_diag, firstn_all. cbn [firstn].
  now rewrite app_nil_r.
Qed.

Lemma known_flag_not_digit (c : rune) :
  In c knownFlags -> c <> 48 -> isDigit (byte_of c) = false.
Proof.
  intros Hin Hz. simpl in Hin.
  destruct Hin as [<-|[<-|[<-|[<-|[<-|[]]]]]]; try reflexivity.
  exfalso. now apply Hz.
Qed.

(** With no width, no precision and no zero flag there is no digit before
    the verb. *)
Lemma no_digit_before_verb {S : Type} `{State S} (s : S) (verb : rune) :
  snd (widthAns (answers s)) = false ->
  snd (precAns (answers s)) = false ->
  ~ In 48 (setFlags (answers s)) ->
  digitBeforeVerb (formatted s verb) verb = false.
Proof.
  intros Hw Hp Hz. unfold digitBeforeVerb.
  rewrite formatted_render, beforeVerb_render, Hw, Hp. cbn [app].
  rewrite app_nil_r. cbn [existsb]. change (isDigit "%"%char) with false.
  cbn [orb].
  apply not_true_is_false. intros E. apply existsb_exists in E.
  destruct E as (b & Hb & Hd). apply in_map_iff in Hb.
  destruct Hb as (c & <- & Hin).
  rewrite known_flag_not_digit in Hd; [discriminate | |].
  - now apply setFlags_known in Hin.
  - intros ->. contradiction.
Qed.

(** C5, as stated, fails: with the width unset, a present precision puts a
    digit run before the verb (and so does the zero flag). *)
Lemma width_unset_digit_before_verb :
  snd (widthOf (directive "" None (Some 2))) = false
  /\ snd (widthAns (answers (directive "" None (Some 2)))) = false
  /\ formatted (directive "" None (Some 2)) 102 = "%.2f"
  /\ digitBeforeVerb (formatted (directive "" None (Some 2)) 102) 102 = true
  /\ formatted (directive "0" None None) 115 = "%0s"
  /\ digitBeforeVerb (formatted (directive "0" None None) 115) 115 = true.
Proof. repeat split. Qed.

(** C5, amended: for every state whose [Width] reports not-present, and
    every verb, no width digits are emitted: the result is the percent sign,
    the set flags, the precision if present, and the verb.  When moreover
    the precision is not present and the zero flag is not set, no decimal
    digit occurs before the verb. *)
Theorem width_unset_no_width_digits {S : Type} `{State S} (s : S) (verb : rune) :
  snd (widthAns (answers s)) = false ->
  formatted s verb
  = "%" ++ flagText (setFlags (answers s))
        ++ precText (precAns (answers s)) ++ verbText verb
  /\ (snd (precAns (answers s)) = false -> ~ In 48 (setFlags (answers s)) ->
      digitBeforeVerb (formatted s verb) verb = false).
Proof.
  intros Hw. split.
  - rewrite formatted_render. unfold render, widthText. now rewrite Hw.
  - intros Hp Hz. now apply no_digit_before_verb.
Qed.

Lemma width_unset_no_width_digits_witness :
  snd (widthAns (answers (directive "-#" None None))) = false
  /\ snd (precAns (answers (directive "-#" None None))) = false
  /\ ~ In 48 (setFlags (answers (directive "-#" None None)))
  /\ formatted (directive "-#" None None) 118 = "%-#v"
  /\ digitBeforeVerb (formatted (directive "-#" None None) 118) 118 = false.
Proof.
  assert (Hz : ~ In 48 (setFlags (answers (directive "-#" None None)))).
  { vm_compute. intuition discriminate. }
  split; [reflexivity|]. split; [reflexivity|]. split; [exact Hz|].
  pose proof (width_unset_no_width_digits (directive "-#" None None) 118
                eq_refl) as [Hshape Hnone].
  split; [exact Hshape | exact (Hnone eq_refl Hz)].
Defined.

(** ** The scratch buffer *)

(** C8, as stated, fails: a single-byte verb with one flag, a seven-digit
    width and a six-digit precision needs 17 bytes, and the slice leaves the
    16-byte local array. *)
Lemma scratch_buffer_outgrown :
  List.length (utf8.encode 102) = 1%nat
  /\ formatted (directive "-" (Some 1234567) (Some 123456)) 102
     = "%-1234567.123456f"
  /\ String.length (formatted (directive "-" (Some 1234567) (Some 123456)) 102)
     = 17%nat
  /\ store (fst (runState (formatDirective 102)
                   (directive "-" (Some 1234567) (Some 123456)))) = Heap.
Proof. repeat split. Qed.

(** C8, amended: the 16-byte local array is not sized to the worst case.
    The directive takes one byte for the percent sign, one per set flag (at
    most five), the bytes of the width and precision texts and those of the
    verb's encoding; the slice stays in the local array exactly when this is
    at most 16 and is grown otherwise.  For a single-byte verb it stays
    whenever the width and precision texts together take at most 9 bytes. *)
Theorem scratch_buffer_fit {S : Type} `{State S} (s : S) (verb : rune) :
  String.length (formatted s verb)
  = (1 + List.length (setFlags (answers s))
     + String.length (widthText (widthAns (answers s)))
     + String.length (precText (precAns (answers s)))
     + List.length (utf8.encode verb))%nat
  /\ (List.length (setFlags (answers s)) <= 5)%nat
  /\ (store (fst (runState (formatDirective verb) s)) = Local 16
      <-> (String.length (formatted s verb) <= 16)%nat)
  /\ (store (fst (runState (formatDirective verb) s)) = Heap
      <-> (16 < String.length (formatted s verb))%nat)
  /\ (List.length (utf8.encode verb) = 1%nat ->
      (String.length (widthText (widthAns (answers s)))
       + String.length (precText (precAns (answers s))) <= 9)%nat ->
      store (fst (runState (formatDirective verb) s)) = Local 16).
Proof.
  assert (Hlen : String.length (formatted s verb)
    = (1 + List.length (setFlags (answers s))
       + String.length (widthText (widthAns (answers s)))
       + String.length (precText (precAns (answers s)))
       + List.length (utf8.encode verb))%nat).
  { rewrite formatted_render. unfold render, flagText, verbText.
    rewrite !string_length_app, !string_length_of_bytes, length_map.
    simpl. lia. }
  assert (Hstore : store (fst (runState (formatDirective verb) s))
                   = if (String.length (formatted s verb) <=? 16)%nat
                     then Local 16 else Heap).
  { rewrite formatDirective_factors, formatted_render. cbn [fst].
    rewrite store_scratch. unfold bytes_of_string.
    rewrite <- (string_of_list_ascii_of_string (render (answers s) verb)) at 2.
    change (string_of_list_ascii ?l) with (string_of_bytes l).
    now rewrite string_length_of_bytes. }
  pose proof (setFlags_count s) as Hfl.
  split; [exact Hlen|]. split; [exact Hfl|].
  rewrite Hstore.
  destruct (Nat.leb_spec (String.length (formatted s verb)) 16) as [Hin|Hout].
  - repeat split; intros; try reflexivity; try lia; discriminate.
  - repeat split; intros; try reflexivity; try lia; discriminate.
Qed.

Lemma scratch_buffer_fit_witness :
  List.length (utf8.encode 102) = 1%nat
  /\ Nat.le
       (String.length
          (widthText (widthAns (answers (directive "+-0" (Some 12345) (Some 123)))))
        + String.length
            (precText (precAns (answers (directive "+-0" (Some 12345) (Some 123))))))
       9
  /\ formatted (directive "+-0" (Some 12345) (Some 123)) 102 = "%+-012345.123f"
  /\ store (fst (runState (formatDirective 102)
                   (directive "+-0" (Some 12345) (Some 123)))) = Local 16.
Proof.
  assert (Hsize :
    Nat.le
       (String.length
          (widthText (widthAns (answers (directive "+-0" (Some 12345) (Some 123)))))
        + String.length
            (precText (precAns (answers (directive "+-0" (Some 12345) (Some 123))))))
       9) by (vm_compute; lia).
  split; [reflexivity|]. split; [exact Hsize|]. split; [reflexivity|].
  pose proof (scratch_buffer_fit (directive "+-0" (Some 12345) (Some 123)) 102)
    as (_ & _ & _ & _ & Hfit).
  exact (Hfit eq_refl Hsize).
Defined.

(** ** The buffer only grows at its end *)

(** C6: each of the four writes leaves the previous contents of the buffer
    as a prefix of the new contents: [write] and [writeString] add the given
    bytes, [writeByte] the given byte and [writeRune] the encoding of the
    given rune, which for a valid code point is exactly its UTF-8
    encoding. *)
Theorem buffer_append_only
    (b : buffer) (p : list byte) (s : string) (c : byte) (r : rune) :
  prefix (elems b) (elems (buffer_.write b p))
  /\ prefix (elems b) (elems (buffer_.writeString b s))
  /\ prefix (elems b) (elems (buffer_.writeByte b c))
  /\ prefix (elems b) (elems (buffer_.writeRune b r))
  /\ elems (buffer_.write b p) = (elems b ++ p)%list
  /\ elems (buffer_.writeString b s) = (elems b ++ bytes_of_string s)%list
  /\ elems (buffer_.writeByte b c) = (elems b ++ [c])%list
  /\ elems (buffer_.writeRune b r) = (elems b ++ utf8.encode r)%list
  /\ (utf8.ValidRune r = true ->
      elems (buffer_.writeRune b r) = (elems b ++ utf8_encoding r)%list).
Proof.
  unfold buffer_.write, buffer_.writeString, buffer_.writeByte,
    buffer_.writeRune, utf8.AppendRune, prefix.
  rewrite !elems_append.
  repeat split; try (eexists; reflexivity).
  intros Hr. now rewrite (encode_is_utf8 r Hr).
Qed.

(** Writing the euro sign after two bytes. *)
Lemma buffer_append_only_witness :
  utf8.ValidRune 8364 = true
  /\ elems (buffer_.writeRune (mkSlice ["a"%char; "b"%char] Heap) 8364)
     = ["a"%char; "b"%char; mkbyte 226; mkbyte 130; mkbyte 172].
Proof.
  split; [reflexivity|].
  pose proof (buffer_append_only (mkSlice ["a"%char; "b"%char] Heap)
                [] "" "x"%char 8364) as Happ.
  exact (proj2 (proj2 (proj2 (proj2 (proj2 (proj2 (proj2 (proj2 Happ)))))))
           eq_refl).
Defined.

(** ** The interface handed to custom formatters *)

(** C4: a [State] is its four operations and nothing else: [Write] takes
    bytes and returns a count and an error, [Width] and [Precision] return a
    value and whether it is set, [Flag] takes a character and returns a
    boolean.  On the printer state the three queries leave the state, and
    with it the sink, as they found it, and report an unset option as a pair
    whose second component is false; [Write] passes the bytes to the sink,
    returns their number and no error, and leaves the options alone. *)
Theorem State_surface :
  (forall (S : Type) (X Y : State S),
      @Write S X = @Write S Y -> @Width S X = @Width S Y ->
      @Precision S X = @Precision S Y -> @Flag S X = @Flag S Y -> X = Y)
  /\ ReadOnlyQueries FormattingContext
  /\ (forall (c : FormattingContext) (ch : int),
        snd (runState Width c) = c /\ snd (runState Precision c) = c
        /\ snd (runState (Flag ch) c) = c
        /\ sink (snd (runState Width c)) = sink c
        /\ sink (snd (runState Precision c)) = sink c
        /\ sink (snd (runState (Flag ch) c)) = sink c)
  /\ (forall (c : FormattingContext),
        (snd (widthOf c) = false <-> width (options c) = None)
        /\ (forall w, widthOf c = (w, true) <-> width (options c) = Some w)
        /\ (snd (precisionOf c) = false <-> precision (options c) = None)
        /\ (forall p, precisionOf c = (p, true)
                      <-> precision (options c) = Some p))
  /\ (forall (c : FormattingContext) (b : list byte),
        fst (runState (Write b) c) = (Z.of_nat (List.length b), None)
        /\ elems (sink (snd (runState (Write b) c))) = (elems (sink c) ++ b)%list
        /\ options (snd (runState (Write b) c)) = options c).
Proof.
  split; [|split; [exact context_readonly|split; [|split]]].
  - intros S [w1 a1 p1 f1] [w2 a2 p2 f2]. cbn. now intros -> -> -> ->.
  - intros c ch. repeat split.
  - intros c. unfold widthOf, precisionOf. cbn.
    destruct (width (options c)), (precision (options c)); cbn;
      repeat split; intros; try discriminate; try congruence.
  - intros c b. cbn. split; [reflexivity|]. split; [|reflexivity].
    unfold buffer_.write. apply elems_append.
Qed.

(** A state with width 7 and no precision, queried and written to. *)
Lemma State_surface_witness :
  widthOf (directive "#" (Some 7) None) = (7, true)
  /\ snd (precisionOf (directive "#" (Some 7) None)) = false
  /\ snd (runState Width (directive "#" (Some 7) None))
     = directive "#" (Some 7) None.
Proof.
  pose proof State_surface as (_ & _ & Hq & Hrep & _).
  destruct (Hrep (directive "#" (Some 7) None)) as (_ & Hw & Hp & _).
  split; [apply Hw; reflexivity|]. split; [apply Hp; reflexivity|].
  apply (Hq (directive "#" (Some 7) None) 0).
Defined.

(** ** Stringer and GoStringer *)

(** C7: plain-string rendering is the [String] method of a [Stringer] and
    syntax rendering is the separate [GoString] method of a [GoStringer],
    each taking only the value and returning a string.  [GoString] is
    consulted only for the %#v directive, and [String] only for a verb that
    accepts a string outside that directive; conversely a value without a
    full custom format is rendered by [GoString] under %#v when it has one
    and by [String] under a string-accepting verb when it has one. *)
Theorem stringer_dispatch
    (acceptsString : rune -> bool) (c : FormattingContext)
    (arg : Operand) (verb : rune) :
  (forall t, handleMethods acceptsString c arg verb = ViaGoStringer t ->
     verb = 118 /\ flagOf c 35 = true /\ asFormatter arg = false
     /\ exists g, asGoStringer arg = Some g /\ t = @GoString _ g (value arg))
  /\ (forall t, handleMethods acceptsString c arg verb = ViaStringer t ->
     sharpV c verb = false /\ acceptsString verb = true
     /\ asFormatter arg = false
     /\ exists st, asStringer arg = Some st /\ t = @String _ st (value arg))
  /\ (forall g, asFormatter arg = false -> sharpV c verb = true ->
     asGoStringer arg = Some g ->
     handleMethods acceptsString c arg verb
     = ViaGoStringer (@GoString _ g (value arg)))
  /\ (forall st, asFormatter arg = false -> sharpV c verb = false ->
     acceptsString verb = true -> asStringer arg = Some st ->
     handleMethods acceptsString c arg verb
     = ViaStringer (@String _ st (value arg))).
Proof.
  unfold handleMethods.
  destruct (asFormatter arg); [repeat split; intros; discriminate|].
  destruct (sharpV c verb) eqn:Hsharp.
  - unfold sharpV in Hsharp. apply andb_prop in Hsharp.
    destruct Hsharp as [Hflag Hverb]. apply Z.eqb_eq in Hverb.
    destruct (asGoStringer arg) as [g|]; repeat split; intros;
      try discriminate; try congruence.
    exists g. split; congruence.
  - destruct (acceptsString verb);
      destruct (asStringer arg) as [st|]; repeat split; intros;
      try discriminate; try congruence.
    exists st. split; congruence.
Qed.

(** Monday under %#v, %v and %d. *)
Lemma stringer_dispatch_witness :
  handleMethods stringVerb (directive "#" None None) (weekday Monday) 118
  = ViaGoStringer "time.Monday"
  /\ handleMethods stringVerb (directive "" None None) (weekday Monday) 118
     = ViaStringer "Monday"
  /\ handleMethods stringVerb (directive "#" None None) (weekday Monday) 100
     = ViaBuiltIn.
Proof.
  pose proof (stringer_dispatch stringVerb (directive "#" None None)
                (weekday Monday) 118) as (_ & _ & Hgo & _).
  pose proof (stringer_dispatch stringVerb (directive "" None None)
                (weekday Monday) 118) as (_ & _ & _ & Hstr).
  split; [exact (Hgo Weekday_GoStringer eq_refl eq_refl eq_refl)|].
  split; [exact (Hstr Weekday_Stringer eq_refl eq_refl eq_refl eq_refl)|].
  reflexivity.
Defined.

(** ** The reserved strings *)

(** C3: the reserved diagnostic fragments have exactly the listed texts,
    byte for byte (compared as byte sequences, in the order of the constant
    block). *)
Theorem diagnostic_fragments_exact :
  map bytes_of_string diagnosticFragments =
  map bytes_of_string
    [ "<nil>"; "(nil)"; "nil"; "map["; "%!"; "(MISSING)"; "(BADINDEX)";
      "(PANIC="; "%!(EXTRA "; "%!(BADWIDTH)"; "%!(BADPREC)"; "%!(NOVERB)" ]
  /\ map String.length diagnosticFragments =
     [5; 5; 3; 4; 2; 9; 10; 7; 9; 12; 11; 10]%nat.
Proof. split; reflexivity. Qed.

(* ===================================================================== *)
(** * Further properties of FormatString and the buffer *)
(* ===================================================================== *)

(** ** What FormatString does to the state *)

Lemma runState_logged {S A : Type} (call : Call) (m : state S A)
    (s : S) (log : list Call) :
  runState (logged call m) (s, log)
  = (fst (runState m s), (snd (runState m s), (log ++ [call])%list)).
Proof. unfold logged. cbn. now destruct (runState m s). Qed.

Lemma logged_collect {S : Type} `{State S} (l : list rune) :
  forall (acc : list rune) (s : S) (log : list Call),
    runState (forRange collectFlag l acc) (s, log)
    = (fst (runState (forRange collectFlag l acc) s),
       (snd (runState (forRange collectFlag l acc) s),
        (log ++ map CallFlag l)%list)).
Proof.
  induction l as [|c l IH]; intros acc s log.
  - cbn. now rewrite app_nil_r.
  - cbn [forRange]. rewrite !runState_bind.
    assert (E : runState (collectFlag acc c) (s, log)
                = (fst (runState (collectFlag acc c) s),
                   (snd (runState (collectFlag acc c) s),
                    (log ++ [CallFlag c])%list))).
    { unfold collectFlag. rewrite !runState_bind, !runState_ret.
      change (@Flag (S * list Call) Logged_State c)
        with (logged (CallFlag c) (Flag c)).
      rewrite runState_logged. reflexivity. }
    rewrite E. cbn [fst snd]. rewrite IH. cbn [map].
    now rewrite <- app_assoc.
Qed.

Lemma logged_queryAll {S : Type} `{State S} (s : S) (log : list Call) :
  runState queryAll (s, log)
  = (answers s,
     (snd (runState queryAll s),
      (log ++ map CallFlag knownFlags ++ [CallWidth; CallPrecision])%list)).
Proof.
  unfold answers, queryAll, queryFlags.
  rewrite !runState_bind, !runState_ret, logged_collect. cbn [fst snd].
  change (@Width (S * list Call) Logged_State) with (logged CallWidth Width).
  change (@Precision (S * list Call) Logged_State)
    with (logged CallPrecision Precision).
  repeat (rewrite runState_logged; cbn [fst snd]).
  rewrite <- !app_assoc. reflexivity.
Qed.

Lemma FormatString_run {S : Type} `{State S} (s : S) (verb : rune) :
  runState (FormatString verb) s
  = (render (answers s) verb, snd (runState queryAll s)).
Proof.
  unfold FormatString. rewrite runState_bind, runState_ret.
  rewrite formatDirective_factors. cbn [fst snd]. rewrite elems_scratch.
  unfold bytes_of_string, string_of_bytes.
  now rewrite string_of_list_ascii_of_string.
Qed.

(** X1: one call of [FormatString] makes exactly seven calls on the state,
    in this order: [Flag] for space, plus, minus, sharp and zero, then
    [Width], then [Precision].  It never calls [Write], it asks about no
    other flag, and it asks for width and precision even when it will not
    use the value.  The string and the final state are those of the same
    call on the state that is not being recorded. *)
Theorem FormatString_calls {S : Type} `{State S}
    (s : S) (log : list Call) (verb : rune) :
  runState (FormatString verb) (s, log)
  = (formatted s verb,
     (snd (runState (FormatString verb) s),
      (log ++ [CallFlag 32; CallFlag 43; CallFlag 45; CallFlag 35;
               CallFlag 48; CallWidth; CallPrecision])%list)).
Proof.
  unfold formatted. rewrite !FormatString_run.
  unfold answers at 1. rewrite logged_queryAll. reflexivity.
Qed.

(** X2: on a state whose queries only report, [FormatString] returns the
    state as it found it; for the printer state neither the sink nor the
    options change. *)
Theorem FormatString_leaves_state {S : Type} `{State S} (s : S) (verb : rune) :
  ReadOnlyQueries S -> snd (runState (FormatString verb) s) = s.
Proof.
  intros Hro. now rewrite FormatString_run, (queryAll_readonly s Hro).
Qed.

Lemma FormatString_leaves_state_witness :
  ReadOnlyQueries FormattingContext
  /\ snd (runState (FormatString 100)
            (mkContext (mkSlice ["a"%char] Heap)
                       (mkOptionSet [45] (Some 4) None)))
     = mkContext (mkSlice ["a"%char] Heap) (mkOptionSet [45] (Some 4) None).
Proof.
  split; [exact context_readonly|].
  apply (FormatString_leaves_state
           (mkContext (mkSlice ["a"%char] Heap) (mkOptionSet [45] (Some 4) None))
           100 context_readonly).
Defined.

(** ** The size and the alphabet of the result *)

Lemma formatDigits_length (fuel : nat) :
  forall (k : nat) (u : Z) (a : list byte),
    (1 <= k)%nat -> 0 <= u < 10 ^ Z.of_nat k ->
    (List.length (formatDigits fuel u a) <= k + List.length a)%nat.
Proof.
  induction fuel as [|fuel IH]; intros k u a Hk Hu; simpl; [lia|].
  destruct (Z.leb_spec 10 u) as [Hge|Hlt]; [|simpl; lia].
  destruct k as [|[|k]]; [lia | change (10 ^ Z.of_nat 1) with 10 in Hu; lia |].
  rewrite Nat2Z.inj_succ, Z.pow_succ_r in Hu by lia.
  specialize (IH (S k) (u / 10) (digit (u - u / 10 * 10) :: a)).
  simpl in IH. etransitivity; [apply IH|]; try lia.
  split; [apply Z.div_pos; lia | apply Z.div_lt_upper_bound; lia].
Qed.

Lemma formatDigits_nonempty (fuel : nat) (u : Z) :
  (1 <= List.length (formatDigits (S fuel) u []))%nat.
Proof.
  simpl. destruct (10 <=? u); [|simpl; lia].
  rewrite formatDigits_acc, length_app. simpl. lia.
Qed.

Lemma formatBits_length (i : Z) :
  - 2 ^ 63 <= i < 2 ^ 63 -> (1 <= List.length (formatBits i) <= 20)%nat.
Proof.
  intros Hi. rewrite formatBits_magnitude by assumption.
  pose proof (formatDigits_nonempty 19 (Z.abs i)) as Hlow.
  pose proof (formatDigits_length 20 19 (Z.abs i) [] ltac:(lia)) as Hup.
  change (10 ^ Z.of_nat 19) with (10 ^ 19) in Hup.
  change (List.length (@nil byte)) with 0%nat in Hup.
  assert (Hb : 0 <= Z.abs i < 10 ^ 19).
  { split; [lia|]. apply Z.le_lt_trans with (2 ^ 63); [lia | reflexivity]. }
  specialize (Hup Hb).
  rewrite length_app. destruct (i <? 0); cbn [List.length]; unfold byte in *; lia.
Qed.

Lemma formatBits_alphabet (i : Z) (b : byte) :
  In b (formatBits i) -> b = "-"%char \/ isDigit b = true.
Proof.
  unfold formatBits. intros Hin.
  assert (Hd : forall u, 0 <= u -> In b (formatDigits 20 u []) -> isDigit b = true).
  { intros u Hu Hb.
    pose proof (formatDigits_all_digits 20 u [] Hu eq_refl) as Hall.
    rewrite forallb_forall in Hall. now apply Hall. }
  assert (Hu : forall z, 0 <= uint64 z)
    by (intros z; unfold uint64; apply Z.mod_pos_bound; lia).
  destruct (i <? 0).
  - destruct Hin as [<-|Hin]; [now left | right].
    eapply Hd; [apply Hu | exact Hin].
  - right. eapply Hd; [apply Hu | exact Hin].
Qed.

Lemma widthText_length (w : int * bool) :
  (String.length (widthText w) <= 20)%nat.
Proof.
  unfold widthText, itoa. destruct (snd w); [|simpl; lia].
  rewrite string_length_of_bytes. apply formatBits_length, int64_range.
Qed.

Lemma precText_length (p : int * bool) :
  (String.length (precText p) <= 21)%nat.
Proof.
  unfold precText, itoa. destruct (snd p); [|simpl; lia].
  rewrite string_length_app, string_length_of_bytes.
  pose proof (formatBits_length (int64 (fst p)) (int64_range _)). simpl. lia.
Qed.

Lemma formatted_length {S : Type} `{State S} (s : S) (verb : rune) :
  String.length (formatted s verb)
  = (1 + List.length (setFlags (answers s))
     + String.length (widthText (widthAns (answers s)))
     + String.length (precText (precAns (answers s)))
     + List.length (utf8.encode verb))%nat.
Proof.
  rewrite formatted_render. unfold render, flagText, verbText.
  rewrite !string_length_app, !string_length_of_bytes, length_map.
  simpl. lia.
Qed.

(** X3: whatever the state and the verb, the result has at least 2 and at
    most 51 bytes: the percent sign, at most five flags, at most 20 bytes of
    width (a sign and 19 digits), a dot and at most 20 bytes of precision,
    and one to four bytes of verb.  Both bounds are reached. *)
Theorem FormatString_size {S : Type} `{State S} (s : S) (verb : rune) :
  (2 <= String.length (formatted s verb) <= 51)%nat
  /\ String.length (formatted (directive "" None None) 100) = 2%nat
  /\ String.length
       (formatted (directive " +-#0" (Some (- 2 ^ 63)) (Some (- 2 ^ 63))) 128512)
     = 51%nat.
Proof.
  split; [|split; reflexivity].
  rewrite formatted_length.
  pose proof (setFlags_count s). pose proof (encode_length verb).
  pose proof (widthText_length (widthAns (answers s))).
  pose proof (precText_length (precAns (answers s))). lia.
Qed.

Lemma flag_in_alphabet (c : rune) :
  In c knownFlags -> In (byte_of c) directiveAlphabet.
Proof.
  intros Hin. simpl in Hin.
  destruct Hin as [<-|[<-|[<-|[<-|[<-|[]]]]]]; vm_compute; tauto.
Qed.

Lemma digit_in_alphabet (b : byte) :
  isDigit b = true -> In b directiveAlphabet.
Proof.
  unfold isDigit. intros Hd. apply andb_prop in Hd. destruct Hd as [Hlo Hhi].
  apply Z.leb_le in Hlo, Hhi.
  rewrite <- (ascii_N_embedding b). unfold byteval in Hlo, Hhi.
  set (n := N_of_ascii b) in *.
  assert (Hn : exists k, (k < 10)%nat /\ n = N.of_nat (48 + k)).
  { exists (N.to_nat n - 48)%nat. split; lia. }
  destruct Hn as (k & Hk & ->).
  do 10 (destruct k as [|k]; [vm_compute; tauto|]). lia.
Qed.

Lemma formatBits_in_alphabet (i : Z) (b : byte) :
  In b (formatBits i) -> In b directiveAlphabet.
Proof.
  intros Hin. apply formatBits_alphabet in Hin.
  destruct Hin as [->|Hd]; [vm_compute; tauto | now apply digit_in_alphabet].
Qed.

(** X4: before the verb the result is the percent sign followed only by
    bytes from a fixed alphabet: space, plus, minus, sharp, dot and the ten
    digits.  Whatever the state answers, nothing else can get into the
    directive text. *)
Theorem FormatString_alphabet {S : Type} `{State S} (s : S) (verb : rune) :
  exists body : list byte,
    beforeVerb (formatted s verb) verb = "%"%char :: body
    /\ (forall b, In b body -> In b directiveAlphabet)
    /\ bytes_of_string (formatted s verb)
       = ("%"%char :: body ++ utf8.encode verb)%list.
Proof.
  rewrite formatted_render, beforeVerb_render.
  eexists. split; [reflexivity|]. split.
  - intros b Hin. rewrite !in_app_iff in Hin.
    destruct Hin as [Hin|[Hin|Hin]].
    + apply in_map_iff in Hin. destruct Hin as (c & <- & Hc).
      apply flag_in_alphabet. now apply setFlags_known in Hc.
    + destruct (snd (widthAns (answers s))); [|destruct Hin].
      now apply formatBits_in_alphabet in Hin.
    + destruct (snd (precAns (answers s))); [|destruct Hin].
      destruct Hin as [<-|Hin]; [vm_compute; tauto|].
      now apply formatBits_in_alphabet in Hin.
  - rewrite render_bytes. unfold bytes_of_string, string_of_bytes.
    rewrite list_ascii_of_string_of_list_ascii. unfold renderBytes.
    cbn [app]. now rewrite <- !app_assoc.
Qed.

(** ** Runes written to the buffer can be read back *)

Lemma mkbyte_inj (a b : Z) :
  0 <= a < 256 -> 0 <= b < 256 -> mkbyte a = mkbyte b -> a = b.
Proof.
  intros Ha Hb E. apply (f_equal byteval) in E.
  now rewrite !byteval_mkbyte in E.
Qed.

Lemma valid_rune_range (r : rune) :
  utf8.ValidRune r = true ->
  0 <= r <= 1114111 /\ ~ (55296 <= r <= 57343).
Proof.
  unfold utf8.ValidRune, utf8.surrogateMin, utf8.surrogateMax, utf8.MaxRune.
  lia.
Qed.

Lemma cons_eq_inv {A : Type} (a b : A) (l m : list A) :
  a :: l = b :: m -> a = b /\ l = m.
Proof. intros E. now inversion E. Qed.

Ltac split_conses :=
  repeat match goal with
         | E : _ :: _ = _ :: _ |- _ =>
             apply cons_eq_inv in E; destruct E
         end.

Ltac byte_eqs :=
  repeat match goal with
         | E : mkbyte ?a = mkbyte ?b |- _ =>
             apply mkbyte_inj in E;
             [| Z.div_mod_to_equations; lia | Z.div_mod_to_equations; lia ]
         end.

(** No encoding of a valid rune is the beginning of another. *)
Lemma utf8_prefix_free (r1 r2 : rune) (x y : list byte) :
  0 <= r1 <= 1114111 -> 0 <= r2 <= 1114111 ->
  (utf8_encoding r1 ++ x = utf8_encoding r2 ++ y)%list -> r1 = r2 /\ x = y.
Proof.
  intros H1 H2. unfold utf8_encoding.
  destruct (Z.ltb_spec r1 128); [|destruct (Z.ltb_spec r1 2048);
                                  [|destruct (Z.ltb_spec r1 65536)]];
  (destruct (Z.ltb_spec r2 128); [|destruct (Z.ltb_spec r2 2048);
                                   [|destruct (Z.ltb_spec r2 65536)]]);
  cbn [app]; intros E; split_conses; byte_eqs;
  try (exfalso; Z.div_mod_to_equations; lia);
  (split; [Z.div_mod_to_equations; lia | congruence]).
Qed.

Lemma encode_prefix_free (r1 r2 : rune) (x y : list byte) :
  utf8.ValidRune r1 = true -> utf8.ValidRune r2 = true ->
  (utf8.encode r1 ++ x = utf8.encode r2 ++ y)%list -> r1 = r2 /\ x = y.
Proof.
  intros V1 V2. rewrite !encode_is_utf8 by assumption.
  apply utf8_prefix_free; now apply valid_rune_range.
Qed.

Lemma elems_writeRunes (rs : list rune) :
  forall b, elems (writeRunes b rs) = (elems b ++ flat_map utf8.encode rs)%list.
Proof.
  unfold writeRunes.
  induction rs as [|r rs IH]; intros b; cbn [fold_left flat_map].
  - now rewrite app_nil_r.
  - rewrite IH. unfold buffer_.writeRune, utf8.AppendRune.
    now rewrite elems_append, <- app_assoc.
Qed.

Lemma encodings_decodable (rs1 : list rune) :
  forall rs2 : list rune,
    forallb utf8.ValidRune rs1 = true -> forallb utf8.ValidRune rs2 = true ->
    flat_map utf8.encode rs1 = flat_map utf8.encode rs2 -> rs1 = rs2.
Proof.
  induction rs1 as [|r1 rs1 IH]; intros [|r2 rs2] V1 V2 E; cbn in *.
  - reflexivity.
  - pose proof (encode_length r2). destruct (utf8.encode r2); [simpl in *; lia|].
    discriminate.
  - pose proof (encode_length r1). destruct (utf8.encode r1); [simpl in *; lia|].
    discriminate.
  - apply andb_prop in V1, V2. destruct V1 as [V1 V1'], V2 as [V2 V2'].
    apply encode_prefix_free in E; [|assumption..].
    destruct E as [-> E]. f_equal. now apply IH.
Qed.

(** X5: the runes written to a buffer can be read back from it: two lists of
    valid runes written with [writeRune] to the same buffer leave the same
    bytes only if they are the same list.  (No encoding is a prefix of
    another, so the bytes split into runes in one way only.) *)
Theorem writeRune_decodable (b : buffer) (rs1 rs2 : list rune) :
  forallb utf8.ValidRune rs1 = true -> forallb utf8.ValidRune rs2 = true ->
  elems (writeRunes b rs1) = elems (writeRunes b rs2) -> rs1 = rs2.
Proof.
  intros V1 V2 E. rewrite !elems_writeRunes in E.
  apply app_inv_head in E. now apply encodings_decodable.
Qed.

Lemma writeRune_decodable_witness :
  forallb utf8.ValidRune [104; 233; 8364] = true
  /\ elems (writeRunes (mkSlice [] Heap) [104; 233; 8364])
     = map mkbyte [104; 195; 169; 226; 130; 172]
  /\ (forall rs, forallb utf8.ValidRune rs = true ->
        elems (writeRunes (mkSlice [] Heap) rs)
        = elems (writeRunes (mkSlice [] Heap) [104; 233; 8364]) ->
        rs = [104; 233; 8364]).
Proof.
  split; [reflexivity|]. split; [reflexivity|].
  intros rs V E.
  exact (writeRune_decodable (mkSlice [] Heap) rs [104; 233; 8364] V eq_refl E).
Defined.

(** X6: a rune that is not a valid code point (a surrogate, a value above
    U+10FFFF, a negative value) is written as the three bytes EF BF BD, the
    encoding of the replacement character U+FFFD: the buffer is left as
    writing U+FFFD leaves it. *)
Theorem writeRune_invalid (b : buffer) (r : rune) :
  - 2 ^ 31 <= r < 2 ^ 31 -> utf8.ValidRune r = false ->
  elems (buffer_.writeRune b r)
  = (elems b ++ [mkbyte 239; mkbyte 191; mkbyte 189])%list
  /\ buffer_.writeRune b r = buffer_.writeRune b utf8.RuneError.
Proof.
  intros Hr Hv. unfold buffer_.writeRune, utf8.AppendRune.
  rewrite elems_append, (encode_invalid r Hr Hv). split; reflexivity.
Qed.

Lemma writeRune_invalid_witness :
  - 2 ^ 31 <= 55296 < 2 ^ 31 /\ utf8.ValidRune 55296 = false
  /\ elems (buffer_.writeRune (mkSlice ["a"%char] Heap) 55296)
     = ["a"%char; mkbyte 239; mkbyte 191; mkbyte 189].
Proof.
  assert (Hr : - 2 ^ 31 <= 55296 < 2 ^ 31) by lia.
  split; [exact Hr|]. split; [reflexivity|].
  exact (proj1 (writeRune_invalid (mkSlice ["a"%char] Heap) 55296 Hr eq_refl)).
Defined.

(** ** Writes compose *)



(** ** The directive can be read back from the result *)

(** A list splits in only one way into a run of elements satisfying [P]
    and a rest that is empty or starts with an element that does not. *)
Lemma span_unique {A : Type} (P : A -> bool) (f1 : list A) :
  forall (f2 r1 r2 : list A),
    forallb P f1 = true -> forallb P f2 = true ->
    (forall x, hd_error r1 = Some x -> P x = false) ->
    (forall x, hd_error r2 = Some x -> P x = false) ->
    (f1 ++ r1 = f2 ++ r2)%list -> f1 = f2 /\ r1 = r2.
Proof.
  induction f1 as [|a f1 IH]; intros [|b f2] r1 r2 H1 H2 S1 S2 E; cbn in *.
  - now split.
  - subst r1. apply andb_prop in H2. destruct H2 as [Hb _].
    rewrite (S1 b eq_refl) in Hb. discriminate.
  - subst r2. apply andb_prop in H1. destruct H1 as [Ha _].
    rewrite (S2 a eq_refl) in Ha. discriminate.
  - apply andb_prop in H1, H2. destruct H1 as [_ H1], H2 as [_ H2].
    apply cons_eq_inv in E. destruct E as [-> E].
    destruct (IH f2 r1 r2 H1 H2 S1 S2 E) as [-> ->]. now split.
Qed.

Lemma byte_of_flag_inj (c1 c2 : rune) :
  In c1 knownFlags -> In c2 knownFlags -> byte_of c1 = byte_of c2 -> c1 = c2.
Proof.
  intros H1 H2 E. simpl in H1, H2.
  destruct H1 as [<-|[<-|[<-|[<-|[<-|[]]]]]];
    destruct H2 as [<-|[<-|[<-|[<-|[<-|[]]]]]];
    try reflexivity; vm_compute in E; discriminate.
Qed.

Lemma flag_bytes_inj (fl1 : list rune) :
  forall fl2 : list rune,
    (forall c, In c fl1 -> In c knownFlags) ->
    (forall c, In c fl2 -> In c knownFlags) ->
    map byte_of fl1 = map byte_of fl2 -> fl1 = fl2.
Proof.
  induction fl1 as [|c1 fl1 IH]; intros [|c2 fl2] K1 K2 E; cbn in E;
    try discriminate; [reflexivity|].
  apply cons_eq_inv in E. destruct E as [Ec E]. f_equal.
  - apply byte_of_flag_inj; [apply K1 | apply K2 | assumption]; now left.
  - apply IH; [intros c Hc; apply K1 | intros c Hc; apply K2 | assumption];
      now right.
Qed.

Lemma flag_bytes_all (fl : list rune) :
  (forall c, In c fl -> In c knownFlags) ->
  forallb isFlagByte (map byte_of fl) = true.
Proof.
  intros K. apply forallb_forall. intros b Hb. apply in_map_iff in Hb.
  destruct Hb as (c & <- & Hc). specialize (K c Hc). simpl in K.
  destruct K as [<-|[<-|[<-|[<-|[<-|[]]]]]]; reflexivity.
Qed.

Lemma digit_cases (d : Z) (P : Z -> Prop) :
  0 <= d <= 9 ->
  P 0 -> P 1 -> P 2 -> P 3 -> P 4 -> P 5 -> P 6 -> P 7 -> P 8 -> P 9 -> P d.
Proof.
  intros Hd. intros.
  assert (E : d = 0 \/ d = 1 \/ d = 2 \/ d = 3 \/ d = 4 \/ d = 5 \/ d = 6
              \/ d = 7 \/ d = 8 \/ d = 9) by lia.
  repeat (destruct E as [->|E]; [assumption|]). now subst.
Qed.

Lemma positive_digit_not_flag (d : Z) :
  1 <= d <= 9 -> isFlagByte (digit d) = false.
Proof.
  intros Hd.
  apply (digit_cases d (fun d => 1 <= d -> isFlagByte (digit d) = false));
    try lia; intros; try reflexivity; lia.
Qed.

Lemma formatBits_positive (w : Z) :
  1 <= w < 2 ^ 63 ->
  formatBits w = formatDigits 20 w []
  /\ forallb isDigit (formatBits w) = true
  /\ exists d rest, formatBits w = digit d :: rest /\ 1 <= d <= 9.
Proof.
  intros Hw.
  assert (E : formatBits w = formatDigits 20 w []).
  { rewrite formatBits_magnitude by lia.
    destruct (Z.ltb_spec w 0); [lia|]. now rewrite Z.abs_eq by lia. }
  rewrite E. split; [reflexivity|]. split.
  - apply formatDigits_all_digits; [lia | reflexivity].
  - apply formatDigits_head. change (10 ^ Z.of_nat 20) with (10 ^ 20). lia.
Qed.

Lemma formatDigits_inj (u v : Z) :
  0 <= u < 2 ^ 64 -> 0 <= v < 2 ^ 64 ->
  formatDigits 20 u [] = formatDigits 20 v [] -> u = v.
Proof.
  intros Hu Hv E. apply (f_equal (valueFrom 0)) in E.
  rewrite !formatDigits_value in E
    by (change (10 ^ Z.of_nat 20) with (10 ^ 20); lia).
  exact E.
Qed.

Lemma formatBits_inj (i j : Z) :
  - 2 ^ 63 <= i < 2 ^ 63 -> - 2 ^ 63 <= j < 2 ^ 63 ->
  formatBits i = formatBits j -> i = j.
Proof.
  intros Hi Hj E. rewrite !formatBits_magnitude in E by assumption.
  assert (Hd : forall u rest, 0 <= u ->
             formatDigits 20 u [] = "-"%char :: rest -> False).
  { intros u rest Hu Eu.
    pose proof (formatDigits_all_digits 20 u [] Hu eq_refl) as Hall.
    rewrite Eu in Hall. cbn in Hall. discriminate. }
  destruct (Z.ltb_spec i 0), (Z.ltb_spec j 0); cbn [app] in E.
  - apply cons_eq_inv in E. destruct E as [_ E].
    apply formatDigits_inj in E; lia.
  - symmetry in E. apply Hd in E; [contradiction | lia].
  - apply Hd in E; [contradiction | lia].
  - apply formatDigits_inj in E; lia.
Qed.

Lemma digit_is_ascii (b : byte) : isDigit b = true -> isASCII b = true.
Proof.
  unfold isDigit, isASCII. intros Hd. apply andb_prop in Hd.
  destruct Hd as [_ Hhi]. apply Z.leb_le in Hhi. apply Z.ltb_lt. lia.
Qed.

Lemma formatBits_ascii (i : Z) : forallb isASCII (formatBits i) = true.
Proof.
  apply forallb_forall. intros b Hb. apply formatBits_alphabet in Hb.
  destruct Hb as [->|Hd]; [reflexivity | now apply digit_is_ascii].
Qed.

Lemma flag_bytes_ascii (fl : list rune) :
  (forall c, In c fl -> In c knownFlags) ->
  forallb isASCII (map byte_of fl) = true.
Proof.
  intros K. apply forallb_forall. intros b Hb. apply in_map_iff in Hb.
  destruct Hb as (c & <- & Hc). specialize (K c Hc). simpl in K.
  destruct K as [<-|[<-|[<-|[<-|[<-|[]]]]]]; reflexivity.
Qed.

(** The encoding of a valid rune is one ASCII byte, or starts with a byte
    that is not ASCII. *)
Lemma encode_ascii_or_not (v : rune) :
  utf8.ValidRune v = true ->
  (0 <= v < 128 /\ utf8.encode v = [mkbyte v] /\ isASCII (mkbyte v) = true)
  \/ (128 <= v /\ exists b rest, utf8.encode v = b :: rest /\ isASCII b = false).
Proof.
  intros Hv. rewrite (encode_is_utf8 v Hv).
  apply valid_rune_range in Hv. destruct Hv as [Hr _].
  unfold utf8_encoding, isASCII.
  destruct (Z.ltb_spec v 128);
    [|destruct (Z.ltb_spec v 2048); [|destruct (Z.ltb_spec v 65536)]].
  - left. split; [lia|]. split; [reflexivity|].
    rewrite byteval_mkbyte by lia. apply Z.ltb_lt. lia.
  - right. split; [lia|]. eexists _, _. split; [reflexivity|].
    rewrite byteval_mkbyte by (Z.div_mod_to_equations; lia).
    apply Z.ltb_ge. Z.div_mod_to_equations; lia.
  - right. split; [lia|]. eexists _, _. split; [reflexivity|].
    rewrite byteval_mkbyte by (Z.div_mod_to_equations; lia).
    apply Z.ltb_ge. Z.div_mod_to_equations; lia.
  - right. split; [lia|]. eexists _, _. split; [reflexivity|].
    rewrite byteval_mkbyte by (Z.div_mod_to_equations; lia).
    apply Z.ltb_ge. Z.div_mod_to_equations; lia.
Qed.

(** An ASCII text followed by the encoding of a valid rune determines both. *)
Lemma verb_unique (pre1 pre2 : list byte) (v1 v2 : rune) :
  forallb isASCII pre1 = true -> forallb isASCII pre2 = true ->
  utf8.ValidRune v1 = true -> utf8.ValidRune v2 = true ->
  (pre1 ++ utf8.encode v1 = pre2 ++ utf8.encode v2)%list ->
  pre1 = pre2 /\ v1 = v2.
Proof.
  intros A1 A2 V1 V2 E.
  assert (Hall : forall pre b, forallb isASCII pre = true -> isASCII b = true ->
                   forallb isASCII (pre ++ [b]) = true).
  { intros pre b Hp Hb. rewrite forallb_app, Hp. cbn. now rewrite Hb. }
  destruct (encode_ascii_or_not v1 V1) as [(R1 & E1 & B1)|(R1 & b1 & t1 & E1 & B1)];
    destruct (encode_ascii_or_not v2 V2) as [(R2 & E2 & B2)|(R2 & b2 & t2 & E2 & B2)];
    rewrite E1, E2 in E.
  - apply app_inj_tail in E. destruct E as [-> Eb]. split; [reflexivity|].
    apply mkbyte_inj in Eb; lia.
  - exfalso.
    rewrite <- (app_nil_r (pre1 ++ [mkbyte v1])) in E.
    apply (span_unique isASCII) in E; try (now apply Hall); try assumption.
    + destruct E as [_ E]. discriminate.
    + intros x Hx. discriminate.
    + intros x Hx. cbn in Hx. now inversion Hx; subst.
  - exfalso.
    rewrite <- (app_nil_r (pre2 ++ [mkbyte v2])) in E.
    apply (span_unique isASCII) in E; try (now apply Hall); try assumption.
    + destruct E as [_ E]. discriminate.
    + intros x Hx. cbn in Hx. now inversion Hx; subst.
    + intros x Hx. discriminate.
  - apply (span_unique isASCII) in E; try assumption.
    + destruct E as [-> E]. split; [reflexivity|].
      rewrite <- E1, <- E2 in E.
      assert (E' : (utf8.encode v1 ++ [] = utf8.encode v2 ++ [])%list)
        by now rewrite !app_nil_r.
      now apply encode_prefix_free in E'.
    + intros x Hx. cbn in Hx. now inversion Hx; subst.
    + intros x Hx. cbn in Hx. now inversion Hx; subst.
Qed.

Lemma width_bytes_shape (w : int * bool) :
  (snd w = true -> 1 <= fst w < 2 ^ 63) ->
  forallb isDigit (if snd w then formatBits (int64 (fst w)) else []) = true
  /\ forall (rest : list byte) (x : byte),
       (forall y, hd_error rest = Some y -> isFlagByte y = false) ->
       hd_error ((if snd w then formatBits (int64 (fst w)) else []) ++ rest)%list
       = Some x -> isFlagByte x = false.
Proof.
  intros Hw. destruct (snd w); [|split; [reflexivity | intros rest x Hr; apply Hr]].
  specialize (Hw eq_refl). rewrite int64_id by lia.
  destruct (formatBits_positive (fst w) Hw) as (_ & Hall & d & tl & E & Hd).
  split; [exact Hall|]. intros rest x _ Hx. rewrite E in Hx. cbn in Hx.
  inversion Hx; subst. now apply positive_digit_not_flag.
Qed.

Lemma prec_bytes_shape (p : int * bool) (x : byte) :
  hd_error (if snd p then "."%char :: formatBits (int64 (fst p)) else [])
  = Some x -> isFlagByte x = false /\ isDigit x = false.
Proof.
  destruct (snd p); cbn; intros E; inversion E; subst. now split.
Qed.

Lemma sameOption_width (w1 w2 : int * bool) :
  (snd w1 = true -> 1 <= fst w1 < 2 ^ 63) ->
  (snd w2 = true -> 1 <= fst w2 < 2 ^ 63) ->
  (if snd w1 then formatBits (int64 (fst w1)) else [])
  = (if snd w2 then formatBits (int64 (fst w2)) else []) ->
  sameOption w1 w2.
Proof.
  intros H1 H2 E. unfold sameOption.
  assert (Hne : forall w, 1 <= w < 2 ^ 63 -> formatBits (int64 w) <> []).
  { intros w Hw. rewrite int64_id by lia.
    destruct (formatBits_positive w Hw) as (_ & _ & d & tl & -> & _).
    discriminate. }
  destruct (snd w1), (snd w2).
  - split; [reflexivity|]. intros _.
    specialize (H1 eq_refl). specialize (H2 eq_refl).
    rewrite !int64_id in E by lia. apply formatBits_inj in E; lia.
  - exfalso. now apply (Hne (fst w1) (H1 eq_refl)).
  - exfalso. now apply (Hne (fst w2) (H2 eq_refl)).
  - split; [reflexivity | discriminate].
Qed.

Lemma sameOption_prec (p1 p2 : int * bool) :
  (snd p1 = true -> - 2 ^ 63 <= fst p1 < 2 ^ 63) ->
  (snd p2 = true -> - 2 ^ 63 <= fst p2 < 2 ^ 63) ->
  (if snd p1 then "."%char :: formatBits (int64 (fst p1)) else [])
  = (if snd p2 then "."%char :: formatBits (int64 (fst p2)) else []) ->
  sameOption p1 p2.
Proof.
  intros H1 H2 E. unfold sameOption. destruct (snd p1), (snd p2);
    try discriminate; (split; [reflexivity|]); [|discriminate].
  intros _. specialize (H1 eq_refl). specialize (H2 eq_refl).
  apply cons_eq_inv in E. destruct E as [_ E].
  rewrite !int64_id in E by lia. now apply formatBits_inj in E.
Qed.

Lemma renderBytes_unique (a1 a2 : Answers) (v1 v2 : rune) :
  (forall c, In c (setFlags a1) -> In c knownFlags) ->
  (forall c, In c (setFlags a2) -> In c knownFlags) ->
  positiveWidth a1 -> positiveWidth a2 ->
  int64Precision a1 -> int64Precision a2 ->
  utf8.ValidRune v1 = true -> utf8.ValidRune v2 = true ->
  renderBytes a1 v1 = renderBytes a2 v2 ->
  setFlags a1 = setFlags a2
  /\ sameOption (widthAns a1) (widthAns a2)
  /\ sameOption (precAns a1) (precAns a2)
  /\ v1 = v2.
Proof.
  intros K1 K2 W1 W2 P1 P2 V1 V2 E. unfold renderBytes in E.
  rewrite !app_assoc in E.
  apply verb_unique in E; try assumption.
  - destruct E as [E ->]. rewrite <- !app_assoc in E. cbn [app] in E.
    apply cons_eq_inv in E. destruct E as [_ E].
    destruct (width_bytes_shape (widthAns a1) W1) as [D1 S1].
    destruct (width_bytes_shape (widthAns a2) W2) as [D2 S2].
    apply (span_unique isFlagByte) in E.
    + destruct E as [Ef E]. apply flag_bytes_inj in Ef; try assumption.
      apply (span_unique isDigit) in E; try assumption.
      * destruct E as [Ew Ep].
        split; [exact Ef|]. split; [now apply sameOption_width|].
        split; [now apply sameOption_prec | reflexivity].
      * intros x Hx. now apply prec_bytes_shape in Hx.
      * intros x Hx. now apply prec_bytes_shape in Hx.
    + now apply flag_bytes_all.
    + now apply flag_bytes_all.
    + intros x Hx. apply (S1 _ x) in Hx; [assumption|].
      intros y Hy. now apply prec_bytes_shape in Hy.
    + intros x Hx. apply (S2 _ x) in Hx; [assumption|].
      intros y Hy. now apply prec_bytes_shape in Hy.
  - rewrite !forallb_app. cbn [forallb]. rewrite flag_bytes_ascii by assumption.
    change (isASCII "%"%char) with true. cbn [andb].
    apply andb_true_intro. split.
    + destruct (snd (widthAns a1)); [apply formatBits_ascii | reflexivity].
    + destruct (snd (precAns a1)); [|reflexivity]. cbn [forallb].
      now rewrite formatBits_ascii.
  - rewrite !forallb_app. cbn [forallb]. rewrite flag_bytes_ascii by assumption.
    change (isASCII "%"%char) with true. cbn [andb].
    apply andb_true_intro. split.
    + destruct (snd (widthAns a2)); [apply formatBits_ascii | reflexivity].
    + destruct (snd (precAns a2)); [|reflexivity]. cbn [forallb].
      now rewrite formatBits_ascii.
Qed.

(** X8: the directive can be read back from the result.  For valid verbs,
    and for states whose width, when present, is a positive int64 and whose
    precision, when present, is an int64, two calls of [FormatString] that
    return the same string were given the same set flags, the same width
    and precision (present or not, and the same value when present) and the
    same verb. *)
Theorem FormatString_injective
    {S1 S2 : Type} `{State S1} `{State S2}
    (s1 : S1) (s2 : S2) (v1 v2 : rune) :
  utf8.ValidRune v1 = true -> utf8.ValidRune v2 = true ->
  positiveWidth (answers s1) -> positiveWidth (answers s2) ->
  int64Precision (answers s1) -> int64Precision (answers s2) ->
  formatted s1 v1 = formatted s2 v2 ->
  setFlags (answers s1) = setFlags (answers s2)
  /\ sameOption (widthAns (answers s1)) (widthAns (answers s2))
  /\ sameOption (precAns (answers s1)) (precAns (answers s2))
  /\ v1 = v2.
Proof.
  intros V1 V2 W1 W2 P1 P2 E.
  rewrite !formatted_render, !render_bytes in E.
  apply (f_equal list_ascii_of_string) in E. unfold string_of_bytes in E.
  rewrite !list_ascii_of_string_of_list_ascii in E.
  apply renderBytes_unique; try assumption; apply setFlags_known.
Qed.

(** The flags of one directive in two orders give the same string, and the
    theorem gives back what the two have in common. *)
Lemma FormatString_injective_witness :
  utf8.ValidRune 102 = true
  /\ positiveWidth (answers (directive "+-" (Some 8) (Some 3)))
  /\ int64Precision (answers (directive "-+" (Some 8) (Some 3)))
  /\ formatted (directive "+-" (Some 8) (Some 3)) 102
     = formatted (directive "-+" (Some 8) (Some 3)) 102
  /\ setFlags (answers (directive "+-" (Some 8) (Some 3)))
     = setFlags (answers (directive "-+" (Some 8) (Some 3))).
Proof.
  assert (Hw : forall fl, positiveWidth (answers (directive fl (Some 8) (Some 3)))).
  { intros fl. unfold positiveWidth. rewrite context_answers. cbn. lia. }
  assert (Hp : forall fl, int64Precision (answers (directive fl (Some 8) (Some 3)))).
  { intros fl. unfold int64Precision. rewrite context_answers. cbn. lia. }
  split; [reflexivity|]. split; [apply Hw|]. split; [apply Hp|].
  split; [reflexivity|].
  exact (proj1 (FormatString_injective
                  (directive "+-" (Some 8) (Some 3))
                  (directive "-+" (Some 8) (Some 3)) 102 102
                  eq_refl eq_refl (Hw _) (Hw _) (Hp _) (Hp _) eq_refl)).
Defined.

(** ** Where the directive cannot be read back *)

Lemma filter_known (f : rune -> bool) :
  filter f knownFlags
  = ((if f 32 then [32] else []) ++ (if f 43 then [43] else [])
     ++ (if f 45 then [45] else []) ++ (if f 35 then [35] else [])
     ++ (if f 48 then [48] else []))%list.
Proof.
  change knownFlags with [32; 43; 45; 35; 48]. cbn [filter].
  destruct (f 32), (f 43), (f 45), (f 35), (f 48); reflexivity.
Qed.

Lemma not_member (c : rune) (fl : list rune) :
  ~ In c fl -> existsb (Z.eqb c) fl = false.
Proof.
  intros Hn. apply not_true_is_false. intros E. now apply existsb_eqb_In in E.
Qed.

(** X9: outside those bounds the result is ambiguous.  A width of zero
    reported as present reads as the zero flag: it gives the string of the
    state that has the zero flag and no width.  A negative width reads as
    the minus flag followed by the positive width, when no minus, sharp or
    zero flag is set. *)
Theorem FormatString_collisions
    (k : buffer) (fl : list rune) (p : option int) (verb : rune) (w : int) :
  (~ In 48 fl ->
   formatted (mkContext k (mkOptionSet fl (Some 0) p)) verb
   = formatted (mkContext k (mkOptionSet (48 :: fl) None p)) verb)
  /\ (0 < w < 2 ^ 63 -> ~ In 45 fl -> ~ In 35 fl -> ~ In 48 fl ->
      formatted (mkContext k (mkOptionSet fl (Some (- w)) p)) verb
      = formatted (mkContext k (mkOptionSet (45 :: fl) (Some w) p)) verb).
Proof.
  split.
  - intros H48. rewrite !formatted_render, !render_bytes. f_equal.
    unfold renderBytes. rewrite !context_answers.
    cbn [setFlags widthAns precAns options width precision flags ctx.report
         fst snd].
    rewrite !filter_known. unfold flagOf. cbn [Flag FormattingContext_State].
    cbn. rewrite (not_member 48 fl H48).
    rewrite !app_nil_r, !map_app, <- !app_assoc. reflexivity.
  - intros Hw H45 H35 H48. rewrite !formatted_render, !render_bytes. f_equal.
    unfold renderBytes. rewrite !context_answers.
    cbn [setFlags widthAns precAns options width precision flags ctx.report
         fst snd].
    rewrite !filter_known. unfold flagOf. cbn [Flag FormattingContext_State].
    rewrite (int64_id (- w)), (int64_id w) by lia.
    rewrite (formatBits_magnitude (- w)), (formatBits_magnitude w) by lia.
    destruct (Z.ltb_spec (- w) 0); [|lia]. destruct (Z.ltb_spec w 0); [lia|].
    rewrite Z.abs_neq, Z.abs_eq, Z.opp_involutive by lia.
    cbn. rewrite (not_member 45 fl H45), (not_member 35 fl H35),
      (not_member 48 fl H48).
    rewrite !app_nil_r, !map_app, <- !app_assoc. reflexivity.
Qed.

Lemma FormatString_collisions_witness :
  ~ In 48 [43]
  /\ formatted (directive "+" (Some 0) None) 100 = "%+0d"
  /\ formatted (directive "0+" None None) 100 = "%+0d"
  /\ 0 < 5 < 2 ^ 63
  /\ formatted (directive "+" (Some (-5)) None) 100
     = formatted (directive "-+" (Some 5) None) 100.
Proof.
  assert (H48 : ~ In 48 [43]) by (simpl; intuition discriminate).
  assert (H45 : ~ In 45 [43]) by (simpl; intuition discriminate).
  assert (H35 : ~ In 35 [43]) by (simpl; intuition discriminate).
  assert (Hw : 0 < 5 < 2 ^ 63) by lia.
  pose proof (FormatString_collisions (mkSlice [] Heap) [43] None 100 5)
    as [Hzero Hminus].
  split; [exact H48|]. split; [reflexivity|]. split; [exact (eq_sym (Hzero H48))|].
  split; [exact Hw|]. exact (Hminus Hw H45 H35 H48).
Defined.

(** ** A verb that is not a code point *)

(** X10: a verb that is not a valid code point is not kept: the result is
    the one for the replacement character U+FFFD, so it ends in the bytes
    EF BF BD whatever the invalid value was. *)
Theorem FormatString_invalid_verb {S : Type} `{State S} (s : S) (verb : rune) :
  - 2 ^ 31 <= verb < 2 ^ 31 -> utf8.ValidRune verb = false ->
  formatted s verb = formatted s utf8.RuneError
  /\ bytes_of_string (formatted s verb)
     = (beforeVerb (formatted s verb) verb
        ++ [mkbyte 239; mkbyte 191; mkbyte 189])%list.
Proof.
  intros Hr Hv.
  assert (E : utf8.encode verb = [mkbyte 239; mkbyte 191; mkbyte 189])
    by now rewrite (encode_invalid verb Hr Hv).
  split.
  - rewrite !formatted_render. unfold render, verbText.
    now rewrite (encode_invalid verb Hr Hv).
  - rewrite formatted_render, beforeVerb_render, render_bytes.
    unfold bytes_of_string, string_of_bytes.
    rewrite list_ascii_of_string_of_list_ascii. unfold renderBytes.
    now rewrite E, <- !app_assoc.
Qed.

Lemma FormatString_invalid_verb_witness :
  - 2 ^ 31 <= -1 < 2 ^ 31 /\ utf8.ValidRune (-1) = false
  /\ formatted (directive "" (Some 3) None) (-1)
     = formatted (directive "" (Some 3) None) 65533.
Proof.
  assert (Hr : - 2 ^ 31 <= -1 < 2 ^ 31) by lia.
  split; [exact Hr|]. split; [reflexivity|].
  exact (proj1 (FormatString_invalid_verb
                  (directive "" (Some 3) None) (-1) Hr eq_refl)).
Defined.
